(** * gsh-property-map: the address resolution pipeline

    A shallow embedding of the three scripts of the repository

    - [scrape_and_geocode.js]  (module [Scrape]):   initial geocode,
    - the corrective geocoding script (module [Fix]): re-resolution,
    - [add_zipcodes.js]        (module [AddZip]):   postal enrichment,

    and the properties of the resolution pipeline proved about them.

    Conventions of the embedding.

    - A JavaScript number is an IEEE 754 binary64 value, that is a
      primitive [float]; [null] is [None].  A decimal literal such as
      [42.3] stands for the nearest binary64 value, as in JavaScript.
    - A JavaScript string is a [string]; only [includes], [endsWith],
      [replace], [split] and concatenation are used by the scripts, and
      every pattern they are used with is ASCII.
    - [parseFloat] is not modelled: a forward-geocode response carries the
      numbers [parseFloat] made of its fields, [NaN] included.
    - The HTML fetch and the regular expressions that pull the fields out
      of a listing page are outside the model: [Scrape] starts from the
      extracted fields.
    - The outside world is a [service] (what the geocoding provider answers
      to the n-th request) and a [world] state threaded through the code:
      the number of requests issued and the chronological trace of
      requests and of [setTimeout] pauses.
    - [console.log] output is not part of the data contract and is left
      out. *)

From Stdlib Require Import String Ascii List Bool Arith ZArith Lia.
From Stdlib Require Import Floats.
Import ListNotations.
Local Open Scope list_scope.
Local Open Scope string_scope.

Set Warnings "-inexact-float".

(* ===================================================================== *)
(** * JavaScript strings *)
(* ===================================================================== *)

Module JsString.

(** [strip_prefix pat s] is [Some rest] when [s = pat ++ rest]. *)
Fixpoint strip_prefix (pat s : string) : option string :=
  match pat, s with
  | EmptyString, _ => Some s
  | String _ _, EmptyString => None
  | String a pat', String b s' =>
      if Ascii.eqb a b then strip_prefix pat' s' else None
  end.

(** The first occurrence of [pat] in [s], as the text before it and the
    text after it. *)
Fixpoint find_first (pat s : string) : option (string * string) :=
  match strip_prefix pat s with
  | Some rest => Some (EmptyString, rest)
  | None =>
      match s with
      | EmptyString => None
      | String c s' =>
          match find_first pat s' with
          | Some (before, after) => Some (String c before, after)
          | None => None
          end
      end
  end.

(** [s.includes(pat)] *)
Definition includes (s pat : string) : bool :=
  match find_first pat s with Some _ => true | None => false end.

(** [s.endsWith(suffix)] *)
Definition endsWith (s suffix : string) : bool :=
  (String.length suffix <=? String.length s)%nat
  && String.eqb
       (substring (String.length s - String.length suffix)
                  (String.length suffix) s)
       suffix.

(** [s.replace(pat, by)] with a string pattern: only the FIRST occurrence
    of [pat] is replaced ([by] holds no [$] pattern in the scripts). *)
Definition replace (s pat by_ : string) : string :=
  match find_first pat s with
  | Some (before, after) => before ++ by_ ++ after
  | None => s
  end.

(** [s.split(sep)[1]]: the text between the first and the second
    occurrence of [sep]; [None] is [undefined]. *)
Definition split_second (s sep : string) : option string :=
  match find_first sep s with
  | Some (_, after) =>
      match find_first sep after with
      | Some (piece, _) => Some piece
      | None => Some after
      end
  | None => None
  end.

(** Truthiness of a string: the empty string is falsy. *)
Definition nonempty (s : string) : bool :=
  match s with EmptyString => false | String _ _ => true end.

(** Truthiness of a value that is [null] or a string. *)
Definition truthy (o : option string) : bool :=
  match o with Some s => nonempty s | None => false end.

Definition is_digit (c : ascii) : bool :=
  let n := nat_of_ascii c in (48 <=? n)%nat && (n <=? 57)%nat.

(** [s.replace(/&#\d+;/g, "")] as a left-to-right scan.  The scanner
    holds the characters of a match in progress; when the match fails
    they are emitted unchanged (none of them but the first is [&], so no
    match starts inside them) and the offending character is scanned
    afresh. *)
Inductive scan_state :=
| Idle
| SeenAmp
| SeenHash
| InDigits (ds : string).

Definition pending (st : scan_state) : string :=
  match st with
  | Idle => ""
  | SeenAmp => "&"
  | SeenHash => "&#"
  | InDigits ds => "&#" ++ ds
  end.

Definition is_amp (c : ascii) : bool := Ascii.eqb c "&"%char.

Fixpoint strip_scan (st : scan_state) (s : string) : string :=
  match s with
  | EmptyString => pending st
  | String c s' =>
      let restart :=
        pending st ++
        (if is_amp c then strip_scan SeenAmp s'
         else String c (strip_scan Idle s')) in
      match st with
      | Idle => restart
      | SeenAmp =>
          if Ascii.eqb c "#"%char then strip_scan SeenHash s' else restart
      | SeenHash =>
          if is_digit c then strip_scan (InDigits (String c "")) s'
          else restart
      | InDigits ds =>
          if is_digit c then strip_scan (InDigits (ds ++ String c "")) s'
          else if Ascii.eqb c ";"%char then strip_scan Idle s'
          else restart
      end
  end.

Definition strip_entities (s : string) : string := strip_scan Idle s.

End JsString.

Import JsString.

(* ===================================================================== *)
(** * JavaScript numbers *)
(* ===================================================================== *)

Module JsNumber.

(** A value that is [null] or a number. *)
Definition num := option float.

(** Truthiness of a number: [0], [-0] and [NaN] are falsy. *)
Definition truthy_float (x : float) : bool :=
  negb (PrimFloat.is_zero x || PrimFloat.is_nan x).

(** Truthiness of a value that is [null] or a number. *)
Definition truthy (v : num) : bool :=
  match v with Some x => truthy_float x | None => false end.

(** [v < bound] for [v] null or a number: [null] converts to [0]. *)
Definition lt (v : num) (bound : float) : bool :=
  match v with
  | Some x => PrimFloat.ltb x bound
  | None => PrimFloat.ltb 0%float bound
  end.

(** [v === null] *)
Definition is_null (v : num) : bool :=
  match v with Some _ => false | None => true end.

(** A finite number (not [null], [NaN], [Infinity] or [-Infinity]). *)
Definition finite (v : num) : bool :=
  match v with Some x => PrimFloat.is_finite x | None => false end.

(** What [JSON.parse(JSON.stringify(v))] gives back: [NaN] and the
    infinities are written as [null], [-0] is written as [0]. *)
Definition json_roundtrip (v : num) : num :=
  match v with
  | Some x =>
      if PrimFloat.is_finite x
      then (if PrimFloat.is_zero x then Some 0%float else Some x)
      else None
  | None => None
  end.

End JsNumber.

(* ===================================================================== *)
(** * Data model *)
(* ===================================================================== *)

(** One listing, as the scripts write it to and read it from the JSON
    files.  [zip_code] is [None] while the field does not exist. *)
Record PropertyRecord := mkProperty {
  title : option string;
  url : string;
  image : option string;
  description : option string;
  address : string;
  location_field : option string;
  lat : JsNumber.num;
  lon : JsNumber.num;
  zip_code : option string
}.

Definition set_coords (p : PropertyRecord) (la lo : JsNumber.num)
  : PropertyRecord :=
  mkProperty (title p) (url p) (image p) (description p) (address p)
             (location_field p) la lo (zip_code p).

Definition set_zip (p : PropertyRecord) (zip : string) : PropertyRecord :=
  mkProperty (title p) (url p) (image p) (description p)
             (address p ++ " " ++ zip)
             (location_field p) (lat p) (lon p) (Some zip).

(** The reserved address of a listing without a location. *)
Definition ADDRESS_NOT_FOUND : string := "Address Not Found".

(** The coordinate pair is fully absent (both [null]). *)
Definition coords_absent (p : PropertyRecord) : Prop :=
  lat p = None /\ lon p = None.

(** The coordinate pair is fully present (no component is [null]). *)
Definition coords_present (p : PropertyRecord) : Prop :=
  lat p <> None /\ lon p <> None.

(** A component of the pair is [null]: the test for missing coordinates. *)
Definition coords_missing (p : PropertyRecord) : Prop :=
  lat p = None \/ lon p = None.

(** The pair is never half set. *)
Definition coords_paired (p : PropertyRecord) : Prop :=
  coords_absent p \/ coords_present p.

(** The invariant of the data model: both components finite numbers, or
    both [null]. *)
Definition pair_ok (la lo : JsNumber.num) : bool :=
  (JsNumber.is_null la && JsNumber.is_null lo)
  || (JsNumber.finite la && JsNumber.finite lo).

Definition coords_ok (p : PropertyRecord) : bool :=
  pair_ok (lat p) (lon p).

(** The record as it is read back from the JSON file. *)
Definition persist (p : PropertyRecord) : PropertyRecord :=
  set_coords p (JsNumber.json_roundtrip (lat p))
               (JsNumber.json_roundtrip (lon p)).

(* ===================================================================== *)
(** * The outside world *)
(* ===================================================================== *)

(** One entry of the forward-geocode response, after [parseFloat]:
    [parseFloat(data[0].lat)] and [parseFloat(data[0].lon)] are numbers,
    [NaN] when the field does not parse. *)
Record candidate := mkCandidate {
  cand_lat : float;
  cand_lon : float
}.

(** What a forward-geocode request comes back with: a failure ([fetch]
    throws, the status is not ok, the body is not JSON, ...) or the list
    [data]. *)
Inductive fwd_response :=
| FwdFailure
| FwdData (data : list candidate).

(** What a reverse-geocode request comes back with: a failure, or the
    value of [data.address.postcode] ([None] when [data], [data.address]
    or the field is missing). *)
Inductive rev_response :=
| RevFailure
| RevData (postcode : option string).

(** The provider: its answer to a request, given how many requests have
    been issued before it. *)
Record service := mkService {
  forward : nat -> string -> fwd_response;
  reverse : nat -> float -> float -> rev_response
}.

Inductive event :=
| EvSleep (ms : Z)                (* await new Promise(r => setTimeout(r, ms)) *)
| EvForward (query : string)      (* GET /search?q=query&format=json&limit=1 *)
| EvReverse (la lo : float).      (* GET /reverse?lat=la&lon=lo&format=json *)

Record world := mkWorld {
  requests : nat;
  trace : list event
}.

Definition world0 : world := mkWorld 0 [].

(** Code with effects on the world. *)
Definition M (A : Type) : Type := world -> A * world.

Definition ret {A} (a : A) : M A := fun w => (a, w).

Definition bind {A B} (m : M A) (k : A -> M B) : M B :=
  fun w => let (a, w') := m w in k a w'.

Declare Scope js_scope.
Delimit Scope js_scope with js.
Notation "x <- m ;; k" := (bind m (fun x => k))
  (at level 61, m at next level, right associativity) : js_scope.
Notation "m ;;; k" := (bind m (fun _ => k))
  (at level 61, right associativity) : js_scope.
Local Open Scope js_scope.

Definition sleep (ms : Z) : M unit :=
  fun w => (tt, mkWorld (requests w) (trace w ++ [EvSleep ms])).

Definition fetch_forward (svc : service) (query : string) : M fwd_response :=
  fun w => (forward svc (requests w) query,
            mkWorld (S (requests w)) (trace w ++ [EvForward query])).

Definition fetch_reverse (svc : service) (la lo : float) : M rev_response :=
  fun w => (reverse svc (requests w) la lo,
            mkWorld (S (requests w)) (trace w ++ [EvReverse la lo])).

(** [{ lat, lon }] as the geocode clients return it. *)
Record coords := mkCoords {
  c_lat : JsNumber.num;
  c_lon : JsNumber.num
}.

Definition no_coords : coords := mkCoords None None.

(** The tail of both forward clients: [data && data.length > 0] gives the
    first entry, everything else (the [catch] included) the null pair. *)
Definition first_result (r : fwd_response) : coords :=
  match r with
  | FwdData (c :: _) => mkCoords (Some (cand_lat c)) (Some (cand_lon c))
  | FwdData [] => no_coords
  | FwdFailure => no_coords
  end.

(** The pacing of a trace: every request but the first comes at least
    [1000] ms of pauses after the request before it. *)
Fixpoint paced_from (since : option Z) (tr : list event) : bool :=
  match tr with
  | [] => true
  | EvSleep ms :: tr' =>
      paced_from (option_map (fun d => (d + ms)%Z) since) tr'
  | _ :: tr' =>
      match since with
      | None => paced_from (Some 0%Z) tr'
      | Some d => (1000 <=? d)%Z && paced_from (Some 0%Z) tr'
      end
  end.

Definition paced (tr : list event) : bool := paced_from None tr.

(* ===================================================================== *)
(** * The corrective geocoding script (re-resolution) *)
(* ===================================================================== *)

Module Fix.

(** [Object.entries(STATE_MAP)], in insertion order. *)
Definition STATE_MAP : list (string * string) :=
  [ ("MI", "Michigan"); ("IN", "Indiana"); ("OH", "Ohio"); ("FL", "Florida");
    ("MA", "Massachusetts"); ("MD", "Maryland"); ("USA", "USA") ].

(** The loop over the table at the head of [geocodeAddress]: the first
    entry whose abbreviation ends the query rewrites it, and the loop
    stops. *)
Fixpoint expand_with (table : list (string * string)) (query : string)
  : string :=
  match table with
  | [] => query
  | (abbr, full) :: table' =>
      if endsWith query (" " ++ abbr)
      then replace query (" " ++ abbr) (" " ++ full)
      else expand_with table' query
  end.

Definition expand (query : string) : string := expand_with STATE_MAP query.

Definition geocodeAddress (svc : service) (query : string) : M coords :=
  if negb (nonempty query) then ret no_coords
  else
    r <- fetch_forward svc (expand query) ;;
    ret (first_result r).

(** The test that selects a record for re-resolution. *)
Definition needsUpdate (p : PropertyRecord) : bool :=
  if JsNumber.is_null (lat p) || JsNumber.is_null (lon p) then true
  else includes (address p) ", MI" && JsNumber.lt (lat p) 41%float.

(** The candidate queries of a selected record. *)
Definition queries (p : PropertyRecord) : list string :=
  (if nonempty (address p) && negb (String.eqb (address p) ADDRESS_NOT_FOUND)
   then (address p ++ ", USA")
        :: match title p with
           | Some t => if nonempty t
                       then [t ++ ", " ++ address p ++ ", USA"] else []
           | None => []
           end
   else [])
  ++ match title p with
     | Some t => if nonempty t then [t ++ ", USA"] else []
     | None => []
     end.

(** The plausibility check on a result: the query names Michigan and the
    latitude is under [41]. *)
Definition suspicious (q : string) (c : coords) : bool :=
  includes q "Michigan" && JsNumber.lt (c_lat c) 41%float.

(** The loop over the candidate queries; the boolean is [found]. *)
Fixpoint try_queries (svc : service) (qs : list string) (p : PropertyRecord)
  : M (PropertyRecord * bool) :=
  match qs with
  | [] => ret (p, false)
  | q :: qs' =>
      c <- geocodeAddress svc q ;;
      if JsNumber.truthy (c_lat c) then
        if suspicious q c
        then try_queries svc qs' p                        (* continue *)
        else ret (set_coords p (c_lat c) (c_lon c), true) (* break *)
      else
        sleep 1000 ;;; try_queries svc qs' p
  end.

(** The body of the loop over the properties. *)
Definition process (svc : service) (p : PropertyRecord)
  : M (PropertyRecord * bool) :=
  if needsUpdate p then try_queries svc (queries p) p
  else ret (p, false).

(** The loop over the properties, with [updatedCount]. *)
Fixpoint run (svc : service) (ps : list PropertyRecord)
  : M (list PropertyRecord * nat) :=
  match ps with
  | [] => ret ([], 0)
  | p :: ps' =>
      r <- process svc p ;;
      rest <- run svc ps' ;;
      ret (fst r :: fst rest,
           ((if snd r then 1 else 0) + snd rest)%nat)
  end.

End Fix.

(* ===================================================================== *)
(** * add_zipcodes.js (postal enrichment) *)
(* ===================================================================== *)

Module AddZip.

Definition reverseGeocode (svc : service) (la lo : JsNumber.num)
  : M (option string) :=
  match la, lo with
  | Some x, Some y =>
      if negb (JsNumber.truthy_float x) || negb (JsNumber.truthy_float y)
      then ret None
      else
        r <- fetch_reverse svc x y ;;
        ret match r with
            | RevData (Some postcode) =>
                if nonempty postcode then Some postcode else None
            | RevData None => None
            | RevFailure => None
            end
  | _, _ => ret None                       (* a null operand is falsy *)
  end.

(** The body of the loop over the properties; the boolean tells whether
    [updatedCount] was incremented. *)
Definition process (svc : service) (p : PropertyRecord)
  : M (PropertyRecord * bool) :=
  if negb (JsString.truthy (zip_code p))
     && JsNumber.truthy (lat p) && JsNumber.truthy (lon p)
  then
    zip <- reverseGeocode svc (lat p) (lon p) ;;
    let r := if JsString.truthy zip
             then match zip with
                  | Some z => (set_zip p z, true)
                  | None => (p, false)
                  end
             else (p, false) in
    sleep 1000 ;;; ret r
  else ret (p, false).

Fixpoint run (svc : service) (ps : list PropertyRecord)
  : M (list PropertyRecord * nat) :=
  match ps with
  | [] => ret ([], 0)
  | p :: ps' =>
      r <- process svc p ;;
      rest <- run svc ps' ;;
      ret (fst r :: fst rest,
           ((if snd r then 1 else 0) + snd rest)%nat)
  end.

End AddZip.

(* ===================================================================== *)
(** * scrape_and_geocode.js (initial geocode) *)
(* ===================================================================== *)

Module Scrape.

(** What the extraction layer hands over for one listing page: the fields
    the regular expressions pulled out of the markup, [None] for [null]. *)
Record page := mkPage {
  pg_title : option string;        (* og:title or <title>, site suffix removed *)
  pg_url : string;
  pg_image : option string;
  pg_description : option string;
  pg_location : option string;     (* text under the "Location:" header *)
  pg_desc_address : option string  (* the address pattern found in the
                                      description, read only when the
                                      description is truthy *)
}.

Definition geocodeAddress (svc : service) (query : string) : M coords :=
  sleep 1000 ;;;
  r <- fetch_forward svc query ;;
  ret (first_result r).

(** Steps 1 and 2 of the address extraction: the value of [location]. *)
Definition find_location (pg : page) : option string :=
  if negb (truthy (pg_location pg)) && truthy (pg_description pg)
  then match pg_desc_address pg with
       | Some a => Some a
       | None => pg_location pg
       end
  else pg_location pg.

(** The address and the query of a page: [outputAddress] and the final
    value of [geocodeQuery] ([None] inside is [null]).  The outer [None]
    is the [TypeError] of [title.includes] on a [null] title. *)
Definition plan (pg : page) : option (string * option string) :=
  let location := find_location pg in
  (* if (location) { ... } *)
  let '(outputAddress, geocodeQuery) :=
    match location with
    | Some l =>
        if nonempty l
        then (l, if includes l "," then l else l ++ ", USA")
        else (ADDRESS_NOT_FOUND, "")
    | None => (ADDRESS_NOT_FOUND, "")
    end in
  (* if (outputAddress !== "Address Not Found") { ... } else { ... } *)
  let cleaned : option (string * string) :=
    if negb (String.eqb outputAddress ADDRESS_NOT_FOUND)
    then let a := strip_entities outputAddress in Some (a, a)
    else match pg_title pg with
         | Some t =>
             if includes t " at "
             then Some (outputAddress,
                        match split_second t " at " with
                        | Some city => city
                        | None => "undefined"
                        end ++ ", USA")
             else Some (outputAddress, geocodeQuery)
         | None => None
         end in
  match cleaned with
  | None => None
  | Some (outputAddress, _) =>
      (* every branch of the last test assigns geocodeQuery *)
      let found := negb (String.eqb outputAddress ADDRESS_NOT_FOUND) in
      let geocodeQuery :=
        if truthy (pg_title pg) && found
        then match pg_title pg with
             | Some t => Some (t ++ ", " ++ outputAddress)
             | None => None
             end
        else if found then Some outputAddress
        else pg_title pg in
      Some (outputAddress, geocodeQuery)
  end.

(** The geocoding of a page: the query, then the raw location when the
    query gave no usable latitude. *)
Definition geocode (svc : service) (geocodeQuery location : option string)
  : M coords :=
  match geocodeQuery with
  | Some q =>
      if nonempty q then
        c <- geocodeAddress svc q ;;
        match location with
        | Some l =>
            if negb (JsNumber.truthy (c_lat c)) && nonempty l
            then geocodeAddress svc l
            else ret c
        | None => ret c
        end
      else ret no_coords
  | None => ret no_coords
  end.

(** The queries [geocode] can send for a page, in the order it sends
    them: the final [geocodeQuery], then the raw location. *)
Definition candidates (pg : page) : list string :=
  match plan pg with
  | Some (_, Some q) =>
      if nonempty q
      then q :: match find_location pg with
                | Some l => if nonempty l then [l] else []
                | None => []
                end
      else []
  | _ => []
  end.

(** The body of the loop over the pages; [None] when it throws. *)
Definition scrape_page (svc : service) (pg : page)
  : M (option PropertyRecord) :=
  match plan pg with
  | None => ret None
  | Some (outputAddress, geocodeQuery) =>
      c <- geocode svc geocodeQuery (find_location pg) ;;
      sleep 500 ;;;
      ret (Some (mkProperty (pg_title pg) (pg_url pg) (pg_image pg)
                            (pg_description pg) outputAddress
                            (find_location pg) (c_lat c) (c_lon c) None))
  end.

(** The loop over the pages; [None] when a page throws (the run dies
    before the file is written). *)
Fixpoint run (svc : service) (pgs : list page)
  : M (option (list PropertyRecord)) :=
  match pgs with
  | [] => ret (Some [])
  | pg :: pgs' =>
      r <- scrape_page svc pg ;;
      match r with
      | None => ret None
      | Some p =>
          rest <- run svc pgs' ;;
          ret (option_map (cons p) rest)
      end
  end.

End Scrape.

(* ===================================================================== *)
(** * Sample records and services *)
(* ===================================================================== *)

Definition suspicious_on_record : PropertyRecord :=
  mkProperty (Some "The Meadows") "https://gshrealestate.com/portfolio/a/"
             None None "Canton, MI" (Some "Canton, MI")
             (Some 32.0%float) (Some (-90.0)%float) None.

Definition plausible_on_record : PropertyRecord :=
  mkProperty (Some "The Meadows") "https://gshrealestate.com/portfolio/a/"
             None None "Canton, MI" (Some "Canton, MI")
             (Some 42.3%float) (Some (-83.4)%float) None.

Definition on_the_equator : PropertyRecord :=
  mkProperty (Some "Mitad del Mundo") "https://gshrealestate.com/portfolio/e/"
             None None "Quito" (Some "Quito")
             (Some 0%float) (Some (-78.45)%float) None.


(* ===================================================================== *)
(** * The resolution loop in the words of its specification *)
(* ===================================================================== *)

Module Orchestrator.

(** What the forward client of the corrective script hands back for the
    candidate [q] when the run has issued [n] requests before. *)
Definition answer (svc : service) (n : nat) (q : string) : coords :=
  if nonempty q then first_result (forward svc n (Fix.expand q))
  else no_coords.

(** The number of requests issued once [q] has been asked. *)
Definition issued (n : nat) (q : string) : nat :=
  if nonempty q then S n else n.

(** A result is returned: the latitude handed back is usable. *)
Definition returned (c : coords) : bool := JsNumber.truthy (c_lat c).

(** A returned result is validated when it is not suspicious. *)
Definition validated (q : string) (c : coords) : bool :=
  returned c && negb (Fix.suspicious q c).

(** The first candidate, in order, whose result is returned and
    validated, with that result. *)
Fixpoint first_validated (svc : service) (n : nat) (qs : list string)
  : option (string * coords) :=
  match qs with
  | [] => None
  | q :: qs' =>
      if validated q (answer svc n q) then Some (q, answer svc n q)
      else first_validated svc (issued n q) qs'
  end.

(** The candidates that are asked: every one up to and including the
    first validated one. *)
Fixpoint tried (svc : service) (n : nat) (qs : list string) : list string :=
  match qs with
  | [] => []
  | q :: qs' =>
      q :: (if validated q (answer svc n q) then []
            else tried svc (issued n q) qs')
  end.

(** Accepting a result overwrites the coordinates; no result leaves the
    record as it is. *)
Definition accept (p : PropertyRecord) (r : option (string * coords))
  : PropertyRecord * bool :=
  match r with
  | Some (_, c) => (set_coords p (c_lat c) (c_lon c), true)
  | None => (p, false)
  end.

End Orchestrator.

(** The forward-geocode requests of a trace, in the order they were
    issued. *)
Fixpoint forwards (tr : list event) : list string :=
  match tr with
  | [] => []
  | EvForward q :: tr' => q :: forwards tr'
  | _ :: tr' => forwards tr'
  end.

(** A provider whose first answer is a place in Mississippi and whose
    later answers are a place in Michigan. *)
Definition wrong_then_right : service :=
  mkService (fun n _ =>
               match n with
               | O => FwdData [mkCandidate 32.0 (-90.0)]
               | S _ => FwdData [mkCandidate 42.3 (-83.4)]
               end)
            (fun _ _ _ => RevFailure).

(** A provider that never finds anything. *)
Definition no_match : service :=
  mkService (fun _ _ => FwdData []) (fun _ _ _ => RevData None).

Definition meadows_michigan : PropertyRecord :=
  mkProperty (Some "The Meadows") "https://gshrealestate.com/portfolio/a/"
             None None "Canton, Michigan" (Some "Canton, Michigan")
             None None None.

(* ===================================================================== *)
(** * Pacing of the requests *)
(* ===================================================================== *)

(** The pauses taken since the last request, once the trace is over. *)
Fixpoint elapsed (since : option Z) (tr : list event) : option Z :=
  match tr with
  | [] => since
  | EvSleep ms :: tr' =>
      elapsed (option_map (fun d => (d + ms)%Z) since) tr'
  | _ :: tr' => elapsed (Some 0%Z) tr'
  end.

(** No request yet, or a request followed by pauses of no negative
    length. *)
Definition rested (since : option Z) : Prop :=
  match since with Some d => (0 <= d)%Z | None => True end.

(** No request yet, or the minimum interval has gone by since the last
    one. *)
Definition ready (since : option Z) : Prop :=
  match since with Some d => (1000 <= d)%Z | None => True end.

(** A stretch of trace that is paced from every state of [I] and ends in
    a state of [I]. *)
Definition steady (I : option Z -> Prop) (evs : list event) : Prop :=
  forall since, I since ->
    paced_from since evs = true /\ I (elapsed since evs).

(** The code [m] adds to the trace a stretch with the property [P]. *)
Definition emits {A} (m : M A) (P : list event -> Prop) : Prop :=
  forall w, exists evs,
    trace (snd (m w)) = (trace w ++ evs)%list /\ P evs.

(** A provider whose forward answers never carry a usable latitude. *)
Definition never_returns (svc : service) : Prop :=
  forall n q, Orchestrator.returned (Orchestrator.answer svc n q) = false.

Definition found_in_michigan : service :=
  mkService (fun _ _ => FwdData [mkCandidate 42.3 (-83.4)])
            (fun _ _ _ => RevData (Some "48187")).

(* ===================================================================== *)
(** * Providers with well-formed answers *)
(* ===================================================================== *)

(** Every latitude and longitude of a first result parses to a finite
    number. *)
Definition finite_service (svc : service) : Prop :=
  forall n q,
    match forward svc n q with
    | FwdData (c :: _) =>
        PrimFloat.is_finite (cand_lat c) && PrimFloat.is_finite (cand_lon c)
        = true
    | _ => True
    end.

(** A provider whose longitude does not parse. *)
Definition half_parsed : service :=
  mkService (fun _ _ => FwdData [mkCandidate 42.3 PrimFloat.nan])
            (fun _ _ _ => RevFailure).

(** A provider whose result holds no number at all. *)
Definition unparsed : service :=
  mkService (fun _ _ => FwdData [mkCandidate PrimFloat.nan PrimFloat.nan])
            (fun _ _ _ => RevFailure).

Definition meadows_page : Scrape.page :=
  Scrape.mkPage (Some "The Meadows")
                "https://gshrealestate.com/portfolio/a/" None None
                (Some "Canton, MI") None.

Definition untitled_location_page : Scrape.page :=
  Scrape.mkPage (Some "The Meadows")
                "https://gshrealestate.com/portfolio/a/" None None
                None None.

(* ===================================================================== *)
(** * The enrichment of one record, as a function of the request number *)
(* ===================================================================== *)

(** The postal code the reverse client hands back for the [n]-th
    request. *)
Definition postcode_of (svc : service) (n : nat) (x y : float)
  : option string :=
  match reverse svc n x y with
  | RevData (Some z) => if nonempty z then Some z else None
  | RevData None => None
  | RevFailure => None
  end.

Definition enrich (svc : service) (n : nat) (p : PropertyRecord)
  : PropertyRecord * bool :=
  match lat p, lon p with
  | Some x, Some y =>
      if negb (JsString.truthy (zip_code p))
         && JsNumber.truthy_float x && JsNumber.truthy_float y
      then match postcode_of svc n x y with
           | Some z => (set_zip p z, true)
           | None => (p, false)
           end
      else (p, false)
  | _, _ => (p, false)
  end.

(** A reverse provider that answers a coordinate pair the same way
    whenever it is asked. *)
Definition stateless_reverse (svc : service) : Prop :=
  forall n m x y, reverse svc n x y = reverse svc m x y.

(** A reverse provider whose first request fails and whose later requests
    succeed. *)
Definition failure_then_postcode : service :=
  mkService (fun _ _ => FwdFailure)
            (fun n _ _ =>
               match n with
               | O => RevFailure
               | S _ => RevData (Some "48187")
               end).

(* ===================================================================== *)
(** * The contract of the candidate queries *)
(* ===================================================================== *)




Definition mill_street_query : string := "12 MILL ST, CANTON, MI".

(* ===================================================================== *)
(** * The home page and the loop over the listing pages *)
(* ===================================================================== *)

Module Crawl.

(** [[...new Set(links)]]: a [Set] keeps its members in the order of
    their first insertion, so the spread is the list of first
    occurrences. *)
Fixpoint unique_from (seen links : list string) : list string :=
  match links with
  | [] => []
  | link :: links' =>
      if existsb (String.eqb link) seen
      then unique_from seen links'
      else link :: unique_from (link :: seen) links'
  end.

Definition unique (links : list string) : list string :=
  unique_from [] links.

(** What fetching a listing page and reading its fields gives; [None]
    when [fetchText] hands back [null] or an empty body, which the loop
    passes over. *)
Definition site : Type := string -> option Scrape.page.

(** The record of a page takes the [url] of the loop. *)
Definition at_url (url : string) (pg : Scrape.page) : Scrape.page :=
  Scrape.mkPage (Scrape.pg_title pg) url (Scrape.pg_image pg)
                (Scrape.pg_description pg) (Scrape.pg_location pg)
                (Scrape.pg_desc_address pg).

(** The loop over [uniqueLinks]; [None] when a page throws. *)
Fixpoint visit (svc : service) (pages : site) (urls : list string)
  : M (option (list PropertyRecord)) :=
  match urls with
  | [] => ret (Some [])
  | url :: urls' =>
      match pages url with
      | None => visit svc pages urls'                  (* continue *)
      | Some pg =>
          r <- Scrape.scrape_page svc (at_url url pg) ;;
          match r with
          | None => ret None
          | Some p =>
              rest <- visit svc pages urls' ;;
              ret (option_map (cons p) rest)
          end
      end
  end.

(** The script: the home page ([None] or an empty body ends it before
    anything is written), the links the link pattern finds in it, the
    loop.  The result is what is written to the file. *)
Definition main (svc : service) (pages : site)
           (links_of : string -> list string) (home : option string)
  : M (option (list PropertyRecord)) :=
  match home with
  | Some html =>
      if nonempty html then visit svc pages (unique (links_of html))
      else ret None
  | None => ret None
  end.

(** The pages the loop reads, in its order. *)
Fixpoint fetched (pages : site) (urls : list string) : list Scrape.page :=
  match urls with
  | [] => []
  | url :: urls' =>
      match pages url with
      | Some pg => at_url url pg :: fetched pages urls'
      | None => fetched pages urls'
      end
  end.

End Crawl.

(* ===================================================================== *)
(** * Notions used to describe the passes *)
(* ===================================================================== *)

(** The record differs from [p] in its coordinates at most. *)
Definition same_but_coords (p p' : PropertyRecord) : Prop :=
  p' = set_coords p (lat p') (lon p').

(** A record the enrichment asks the provider about. *)
Definition eligible (p : PropertyRecord) : bool :=
  negb (JsString.truthy (zip_code p))
  && JsNumber.truthy (lat p) && JsNumber.truthy (lon p).

(** The request and the pause the enrichment spends on a record. *)
Definition enrichment_events (p : PropertyRecord) : list event :=
  match lat p, lon p with
  | Some x, Some y =>
      if eligible p then [EvReverse x y; EvSleep 1000] else []
  | _, _ => []
  end.

(** The enrichment left [p] as it was, or appended a postal code to it. *)
Definition enriched (p p' : PropertyRecord) : Prop :=
  p' = p
  \/ exists z, nonempty z = true /\ eligible p = true /\ p' = set_zip p z
               /\ endsWith (address p') (" " ++ z) = true.

(** The records that got a postal code between two collections. *)
Fixpoint zipped_count (before after : list PropertyRecord) : nat :=
  match before, after with
  | p :: before', p' :: after' =>
      ((if negb (JsString.truthy (zip_code p))
           && JsString.truthy (zip_code p')
        then 1 else 0) + zipped_count before' after')%nat
  | _, _ => 0%nat
  end.

(** The character [c] does not occur in the text. *)
Fixpoint no_char (c : ascii) (s : string) : bool :=
  match s with
  | EmptyString => true
  | String a s' => negb (Ascii.eqb a c) && no_char c s'
  end.

(** A record as the initial geocode stores it when the provider sends a
    latitude that is not a number. *)
Definition stored_nan : PropertyRecord :=
  mkProperty (Some "The Meadows") "https://gshrealestate.com/portfolio/a/"
             None None "Canton, OH" (Some "Canton, OH")
             (Some PrimFloat.nan) (Some (-81.4)%float) None.

(** A record nothing can be asked about. *)
Definition nameless : PropertyRecord :=
  mkProperty None "https://gshrealestate.com/portfolio/n/"
             None None "Address Not Found" None None None None.

(** A provider that places everything in Mississippi. *)
Definition found_in_mississippi : service :=
  mkService (fun _ _ => FwdData [mkCandidate 32.3 (-90.0)])
            (fun _ _ _ => RevFailure).

Definition titleless_page : Scrape.page :=
  Scrape.mkPage None "https://gshrealestate.com/portfolio/t/" None None
                None None.

(** The address the initial geocode stores for a page: the location
    without its HTML entities, or the reserved address when there is no
    location (or the location is the reserved address itself). *)
Definition page_address (pg : Scrape.page) : string :=
  match Scrape.find_location pg with
  | Some l =>
      if nonempty l && negb (String.eqb l ADDRESS_NOT_FOUND)
      then strip_entities l
      else ADDRESS_NOT_FOUND
  | None => ADDRESS_NOT_FOUND
  end.

(** The record of a page, its coordinates apart. *)
Definition scraped (pg : Scrape.page) (p : PropertyRecord) : Prop :=
  title p = Scrape.pg_title pg
  /\ url p = Scrape.pg_url pg
  /\ image p = Scrape.pg_image pg
  /\ description p = Scrape.pg_description pg
  /\ address p = page_address pg
  /\ location_field p = Scrape.find_location pg
  /\ zip_code p = None.

(** The listing page could be fetched. *)
Definition has_page (pages : Crawl.site) (url : string) : bool :=
  match pages url with Some _ => true | None => false end.

(** A site with one listing, linked twice from the home page. *)
Definition one_listing : Crawl.site :=
  fun url =>
    if String.eqb url "https://gshrealestate.com/portfolio/a/"
    then Some meadows_page else None.

Definition links_twice (html : string) : list string :=
  ["https://gshrealestate.com/portfolio/a/";
   "https://gshrealestate.com/portfolio/gone/";
   "https://gshrealestate.com/portfolio/a/"].

(** The pair the initial geocode keeps, given the candidates of a page
    and the number of requests issued before: the answer to the first
    candidate when its latitude is usable, else the answer to the second
    candidate when there is one. *)
Definition stored_coords (svc : service) (n : nat) (cands : list string)
  : coords :=
  match cands with
  | [] => no_coords
  | q :: rest =>
      let first := first_result (forward svc n q) in
      if JsNumber.truthy (c_lat first) then first
      else match rest with
           | l :: _ => first_result (forward svc (S n) l)
           | [] => first
           end
  end.

(** A provider that knows the town and not the listing. *)
Definition town_only : service :=
  mkService (fun _ q =>
               if String.eqb q "Canton, MI"
               then FwdData [mkCandidate 42.3 (-83.4)]
               else FwdData [])
            (fun _ _ _ => RevFailure).

(** A forward answer without a first result: a failed request or an
    empty list. *)
Definition no_result (r : fwd_response) : Prop :=
  r = FwdFailure \/ r = FwdData [].

(** A reverse answer without a usable postal code: a failed request, a
    missing field or an empty one. *)
Definition no_postcode (r : rev_response) : Prop :=
  r = RevFailure \/ r = RevData None \/ r = RevData (Some "").

(** A provider that is down. *)
Definition provider_down : service :=
  mkService (fun _ _ => FwdFailure) (fun _ _ _ => RevFailure).

(* ===================================================================== *)
(** * The title of a listing page *)
(* ===================================================================== *)

(** The two replacements that take the name of the site off a title. *)
Definition clean_title (t : string) : string :=
  replace (replace t " - GSH Real Estate" "") " &#8211; GSH Real Estate" "".

(** The title of a page: the [og:title] field, else the [<title>]
    element, cleaned when it is truthy. *)
Definition page_title (og_title title_tag : option string) : option string :=
  let title := if JsString.truthy og_title then og_title else title_tag in
  match title with
  | Some t => if nonempty t then Some (clean_title t) else title
  | None => None
  end.

(* ===================================================================== *)
(** * The expansion and the resolution in the words of their description *)
(* ===================================================================== *)


Module Resolution.

(** The tracked region and its plausibility floor. *)
Definition REGION : string := "Michigan".
Definition FLOOR : float := 41.0%float.

(** A result is returned: the response of the provider has a first
    entry. *)
Definition returned (r : fwd_response) : option candidate :=
  match r with
  | FwdData (c :: _) => Some c
  | FwdData [] => None
  | FwdFailure => None
  end.

(** The latitude of the result is usable: neither [0] nor [NaN]. *)
Definition usable (c : candidate) : bool :=
  negb (PrimFloat.eqb (cand_lat c) 0%float)
  && PrimFloat.eqb (cand_lat c) (cand_lat c).

(** The result is suspicious: the query holds the name of the region and
    the latitude is under the floor. *)
Definition suspicious (q : string) (c : candidate) : bool :=
  includes q REGION && PrimFloat.ltb (cand_lat c) FLOOR.

(** The result of the first candidate, in order, that is returned with a
    usable latitude and is not suspicious; the [n]-th request of the run
    asks for the first candidate. *)
Fixpoint first_accepted (svc : service) (n : nat) (qs : list string)
  : option candidate :=
  match qs with
  | [] => None
  | q :: qs' =>
      match returned (forward svc n q) with
      | Some c =>
          if usable c && negb (suspicious q c) then Some c
          else first_accepted svc (S n) qs'
      | None => first_accepted svc (S n) qs'
      end
  end.

(** The candidates that are asked: every one up to and including the
    accepted one. *)
Fixpoint asked (svc : service) (n : nat) (qs : list string) : list string :=
  match qs with
  | [] => []
  | q :: qs' =>
      q :: match returned (forward svc n q) with
           | Some c =>
               if usable c && negb (suspicious q c) then []
               else asked svc (S n) qs'
           | None => asked svc (S n) qs'
           end
  end.

End Resolution.

(** A listing on the equator, not yet placed. *)
Definition equator_house : PropertyRecord :=
  mkProperty (Some "Equator House") "https://gshrealestate.com/portfolio/q/"
             None None "Address Not Found" None None None None.

(** A provider that places everything on the equator. *)
Definition on_the_line : service :=
  mkService (fun _ _ => FwdData [mkCandidate 0 (-78.45)])
            (fun _ _ _ => RevFailure).


(* ===================================================================== *)
(** * JavaScript strings: the operations on samples *)
(* ===================================================================== *)

Example includes_marker : includes "Canton, MI" ", MI" = true.
Proof. reflexivity. Qed.

Example includes_is_case_sensitive :
  includes "Canton, Michigan" ", MI" = false.
Proof. reflexivity. Qed.

Example endsWith_needs_the_space : endsWith "MI" " MI" = false.
Proof. reflexivity. Qed.

Example replace_first_only :
  replace "a MI b MI" " MI" " Michigan" = "a Michigan b MI".
Proof. reflexivity. Qed.

Example split_second_city :
  split_second "The Meadows at Canton" " at " = Some "Canton".
Proof. reflexivity. Qed.

Example strip_entities_dash :
  strip_entities "Canton &#8211; MI" = "Canton  MI".
Proof. reflexivity. Qed.

Example strip_entities_partial_matches :
  strip_entities "A &#; B &#12 C &&#33;D&#" = "A &#; B &#12 C &D&#".
Proof. reflexivity. Qed.

(** What [find_first] finds is an occurrence of the pattern. *)
Lemma strip_prefix_some (pat s rest : string) :
  strip_prefix pat s = Some rest -> s = pat ++ rest.
Proof.
  revert s. induction pat as [|a pat IH]; intros s H; simpl in H.
  - injection H as H. subst rest. reflexivity.
  - destruct s as [|b s]; [discriminate|].
    destruct (Ascii.eqb a b) eqn:Hab; [|discriminate].
    apply Ascii.eqb_eq in Hab. subst b.
    simpl. rewrite (IH s H). reflexivity.
Qed.

Lemma find_first_some (pat s before after : string) :
  find_first pat s = Some (before, after) -> s = before ++ pat ++ after.
Proof.
  revert before. induction s as [|c s IH]; intros before H.
  - simpl in H. destruct (strip_prefix pat "") as [rest|] eqn:Hp;
      [|discriminate].
    injection H as Hb Ha. subst before rest.
    apply strip_prefix_some in Hp. exact Hp.
  - cbn [find_first] in H.
    destruct (strip_prefix pat (String c s)) as [rest|] eqn:Hp.
    + injection H as Hb Ha. subst before rest.
      apply strip_prefix_some in Hp. exact Hp.
    + destruct (find_first pat s) as [[b a]|]; [|discriminate].
      injection H as Hb Ha. subst before after.
      simpl. rewrite (IH b eq_refl). reflexivity.
Qed.

(** Replacing a text by itself changes nothing. *)
Lemma replace_same (s pat : string) : replace s pat pat = s.
Proof.
  unfold replace. destruct (find_first pat s) as [[b a]|] eqn:H.
  - symmetry. apply find_first_some. exact H.
  - reflexivity.
Qed.

Lemma length_append (s1 s2 : string) :
  String.length (s1 ++ s2) = (String.length s1 + String.length s2)%nat.
Proof.
  induction s1 as [|c s1 IH]; simpl.
  - reflexivity.
  - rewrite IH. reflexivity.
Qed.

Lemma append_assoc (s1 s2 s3 : string) :
  (s1 ++ s2) ++ s3 = s1 ++ (s2 ++ s3).
Proof.
  induction s1 as [|c s1 IH]; simpl.
  - reflexivity.
  - rewrite IH. reflexivity.
Qed.

Lemma substring_skip (s t : string) (k m : nat) :
  substring (String.length s + k) m (s ++ t) = substring k m t.
Proof.
  induction s as [|c s IH]; simpl.
  - reflexivity.
  - exact IH.
Qed.

Lemma append_empty_r (s : string) : s ++ "" = s.
Proof.
  induction s as [|a s IH]; simpl.
  - reflexivity.
  - rewrite IH. reflexivity.
Qed.

Lemma substring_all (s : string) : substring 0 (String.length s) s = s.
Proof.
  induction s as [|c s IH]; simpl.
  - reflexivity.
  - rewrite IH. reflexivity.
Qed.

Lemma endsWith_refl (s : string) : endsWith s s = true.
Proof.
  unfold endsWith. rewrite Nat.leb_refl, Nat.sub_diag, substring_all.
  apply String.eqb_refl.
Qed.



(** Whether a text ends a string is decided by the end of the string. *)
Lemma endsWith_append (s t suffix : string) :
  (String.length suffix <= String.length t)%nat ->
  endsWith (s ++ t) suffix = endsWith t suffix.
Proof.
  intros Hle. unfold endsWith. rewrite length_append.
  replace (String.length s + String.length t - String.length suffix)%nat
    with (String.length s + (String.length t - String.length suffix))%nat
    by lia.
  rewrite substring_skip.
  destruct (String.length suffix <=? String.length t)%nat eqn:H1.
  - assert (H2 : (String.length suffix
                  <=? String.length s + String.length t)%nat = true).
    { apply Nat.leb_le. lia. }
    rewrite H2. reflexivity.
  - apply Nat.leb_gt in H1. lia.
Qed.

(* ===================================================================== *)
(** * Selection for re-resolution *)
(* ===================================================================== *)

Section Selection.

Variable p : PropertyRecord.

(** The test of the script, for every record. *)
Lemma needsUpdate_spec :
  Fix.needsUpdate p = true <->
  coords_missing p \/
  (coords_present p /\ includes (address p) ", MI" = true
   /\ JsNumber.lt (lat p) 41%float = true).
Proof.
  unfold Fix.needsUpdate, coords_missing, coords_present.
  destruct (lat p) as [x|], (lon p) as [y|]; simpl.
  - rewrite andb_true_iff. split.
    + intros [Hm Hl]. right. repeat split; congruence.
    + intros [[H|H]|(_ & Hm & Hl)]; try discriminate. auto.
  - split; auto.
  - split; auto.
  - split; auto.
Qed.

(** On a pair that is not half set, a missing component means an absent
    pair. *)
Lemma coords_missing_absent :
  coords_paired p -> (coords_missing p <-> coords_absent p).
Proof.
  unfold coords_paired, coords_missing, coords_absent, coords_present.
  intros [[Ha Ho]|[Ha Ho]]; split; intros H; auto.
  - destruct H; contradiction.
  - destruct H; contradiction.
Qed.

End Selection.

(** C1 (as amended).  A record is selected for re-resolution exactly
    when its latitude or its longitude is [null] (the absent pair, and
    the half-set pair as well), or both are present, the address holds
    the marker [", MI"] and the stored latitude is under the floor
    [41.0].  On a pair that is not half set this is: absent, or present
    with the marker and a latitude under the floor.  Every record with
    coordinates (32.0, -90.0) and the marker in its address is selected,
    and every record with coordinates (42.3, -83.4) and the marker is
    not. *)
Theorem needsUpdate_selects_missing_or_suspicious :
  (forall p,
     Fix.needsUpdate p = true <->
     coords_missing p \/
     (coords_present p /\ includes (address p) ", MI" = true
      /\ JsNumber.lt (lat p) 41.0%float = true))
  /\ (forall p, coords_paired p ->
        (Fix.needsUpdate p = true <->
         coords_absent p \/
         (coords_present p /\ includes (address p) ", MI" = true
          /\ JsNumber.lt (lat p) 41.0%float = true)))
  /\ (forall p, lat p = Some 32.0%float -> lon p = Some (-90.0)%float ->
        includes (address p) ", MI" = true -> Fix.needsUpdate p = true)
  /\ (forall p, lat p = Some 42.3%float -> lon p = Some (-83.4)%float ->
        includes (address p) ", MI" = true -> Fix.needsUpdate p = false).
Proof.
  split; [|split; [|split]].
  - apply needsUpdate_spec.
  - intros p Hp. rewrite needsUpdate_spec.
    rewrite (coords_missing_absent p Hp). reflexivity.
  - intros p Hla Hlo Hm. unfold Fix.needsUpdate.
    rewrite Hla, Hlo, Hm. reflexivity.
  - intros p Hla Hlo Hm. unfold Fix.needsUpdate.
    rewrite Hla, Hlo, Hm. reflexivity.
Qed.

Lemma needsUpdate_selects_missing_or_suspicious_witness :
  coords_paired suspicious_on_record
  /\ Fix.needsUpdate suspicious_on_record = true
  /\ Fix.needsUpdate plausible_on_record = false.
Proof.
  assert (Hp : coords_paired suspicious_on_record).
  { right. split; discriminate. }
  split; [exact Hp|]. split.
  - apply (proj1 (proj2 needsUpdate_selects_missing_or_suspicious)
             suspicious_on_record Hp).
    right. split; [split; discriminate|]. split; reflexivity.
  - apply (proj2 (proj2 (proj2 needsUpdate_selects_missing_or_suspicious))
             plausible_on_record);
      reflexivity.
Defined.

(** C1 fails as stated: a record that the file holds with a [null]
    latitude next to a longitude (the initial geocode stored a latitude
    that is not a number) is selected, though its pair is neither absent
    nor present. *)
Lemma needsUpdate_counterexample :
  lat (persist stored_nan) = None
  /\ lon (persist stored_nan) = Some (-81.4)%float
  /\ Fix.needsUpdate (persist stored_nan) = true
  /\ ~ coords_absent (persist stored_nan)
  /\ ~ coords_present (persist stored_nan).
Proof.
  split; [reflexivity|]. split; [reflexivity|]. split; [reflexivity|].
  split.
  - intros [_ H]. discriminate H.
  - intros [H _]. apply H. reflexivity.
Qed.

(* ===================================================================== *)
(** * Region-abbreviation expansion *)
(* ===================================================================== *)


(** An abbreviation of the table ends the query: the rewriting is
    [replace], which acts on the first occurrence. *)
Lemma expand_with_hit (table : list (string * string)) (q abbr full : string) :
  endsWith q (" " ++ abbr) = true ->
  Fix.expand_with ((abbr, full) :: table) q
  = replace q (" " ++ abbr) (" " ++ full).
Proof. intros H. simpl in *. rewrite H. reflexivity. Qed.


(** Every query ends in [", USA"], so that the only entry of the table
    that can fire maps ["USA"] to itself. *)
Lemma expand_country_suffix (s : string) :
  Fix.expand (s ++ ", USA") = s ++ ", USA".
Proof.
  unfold Fix.expand, Fix.STATE_MAP, Fix.expand_with.
  rewrite !endsWith_append by (simpl; lia).
  change (endsWith ", USA" (" " ++ "MI")) with false.
  change (endsWith ", USA" (" " ++ "IN")) with false.
  change (endsWith ", USA" (" " ++ "OH")) with false.
  change (endsWith ", USA" (" " ++ "FL")) with false.
  change (endsWith ", USA" (" " ++ "MA")) with false.
  change (endsWith ", USA" (" " ++ "MD")) with false.
  change (endsWith ", USA" (" " ++ "USA")) with true.
  cbv iota. apply replace_same.
Qed.

(** Every candidate query of the re-resolution ends in [", USA"]. *)
Lemma queries_country_suffix (p : PropertyRecord) (q : string) :
  In q (Fix.queries p) -> exists s, q = s ++ ", USA".
Proof.
  unfold Fix.queries. intros H. apply in_app_or in H.
  destruct H as [H|H].
  - destruct (nonempty (address p)
              && negb (String.eqb (address p) ADDRESS_NOT_FOUND));
      [|destruct H].
    destruct H as [Hq|H].
    + exists (address p). symmetry. exact Hq.
    + destruct (title p) as [t|]; [|destruct H].
      destruct (nonempty t); [|destruct H].
      destruct H as [Hq|[]]. exists (t ++ ", " ++ address p).
      rewrite append_assoc, (append_assoc ", " (address p) ", USA").
      symmetry. exact Hq.
  - destruct (title p) as [t|]; [|destruct H].
    destruct (nonempty t); [|destruct H].
    destruct H as [Hq|[]]. exists t. symmetry. exact Hq.
Qed.

(** The expansion leaves every candidate query of the re-resolution as it
    is: an abbreviation such as ["MI"] never ends one. *)
Lemma expand_queries (p : PropertyRecord) (q : string) :
  In q (Fix.queries p) -> Fix.expand q = q.
Proof.
  intros H. destruct (queries_country_suffix p q H) as [s Hs].
  subst q. apply expand_country_suffix.
Qed.

Lemma queries_nonempty (p : PropertyRecord) (q : string) :
  In q (Fix.queries p) -> nonempty q = true.
Proof.
  intros H. destruct (queries_country_suffix p q H) as [s Hs].
  subst q. destruct s; reflexivity.
Qed.

Example expand_single_occurrence :
  Fix.expand "Canton, MI" = "Canton, Michigan".
Proof. reflexivity. Qed.

Example expand_unmapped_abbreviation :
  Fix.expand "Austin, TX" = "Austin, TX".
Proof. reflexivity. Qed.

Example expand_mid_string_only :
  Fix.expand "Canton, MI 48187" = "Canton, MI 48187".
Proof. reflexivity. Qed.

(** A string the script never sends, with the abbreviation inside a word
    and at the end: [replace] acts on the first occurrence. *)
Example expand_first_occurrence_elsewhere :
  Fix.expand mill_street_query = "12 MichiganLL ST, CANTON, MI".
Proof. reflexivity. Qed.





(* ===================================================================== *)
(** * Falsy coordinates in the postal enrichment *)
(* ===================================================================== *)

Lemma falsy_zero (x : float) :
  PrimFloat.eqb x 0%float = true -> JsNumber.truthy (Some x) = false.
Proof.
  intros H. unfold JsNumber.truthy, JsNumber.truthy_float, PrimFloat.is_zero.
  change PrimFloat.zero with 0%float. rewrite H. reflexivity.
Qed.

Lemma falsy_nan (x : float) :
  PrimFloat.is_nan x = true -> JsNumber.truthy (Some x) = false.
Proof.
  intros H. unfold JsNumber.truthy, JsNumber.truthy_float.
  rewrite H, orb_true_r. reflexivity.
Qed.

Lemma falsy_null : JsNumber.truthy None = false.
Proof. reflexivity. Qed.

Lemma reverseGeocode_falsy (svc : service) (la lo : JsNumber.num) (w : world) :
  JsNumber.truthy la = false \/ JsNumber.truthy lo = false ->
  AddZip.reverseGeocode svc la lo w = (None, w).
Proof.
  unfold AddZip.reverseGeocode, JsNumber.truthy.
  destruct la as [x|], lo as [y|]; try reflexivity.
  intros [H|H]; rewrite H; simpl; try reflexivity.
  rewrite orb_true_r. reflexivity.
Qed.

Lemma process_falsy (svc : service) (p : PropertyRecord) (w : world) :
  JsNumber.truthy (lat p) = false \/ JsNumber.truthy (lon p) = false ->
  AddZip.process svc p w = ((p, false), w).
Proof.
  unfold AddZip.process.
  intros [H|H]; rewrite H.
  - rewrite andb_false_r. reflexivity.
  - rewrite andb_false_r. reflexivity.
Qed.

(** C9.  A record whose latitude or longitude is falsy ([0], [-0], [NaN]
    or [null]) is skipped by the postal enrichment: the record is
    unchanged, no request is issued and no pause is taken, whatever the
    other fields hold; and [reverseGeocode] answers [null] without any
    request when one of its arguments is falsy. *)
Theorem falsy_coordinates_skipped :
  forall (svc : service) (p : PropertyRecord) (w : world),
    JsNumber.truthy (lat p) = false \/ JsNumber.truthy (lon p) = false ->
    AddZip.process svc p w = ((p, false), w)
    /\ AddZip.reverseGeocode svc (lat p) (lon p) w = (None, w)
    /\ JsNumber.truthy (Some 0%float) = false
    /\ JsNumber.truthy (Some (-0)%float) = false
    /\ JsNumber.truthy (Some PrimFloat.nan) = false
    /\ JsNumber.truthy None = false.
Proof.
  intros svc p w H. split; [|split].
  - apply process_falsy. exact H.
  - apply reverseGeocode_falsy. exact H.
  - repeat split; reflexivity.
Qed.

Lemma falsy_coordinates_skipped_witness :
  coords_present on_the_equator
  /\ AddZip.process (mkService (fun _ _ => FwdFailure)
                               (fun _ _ _ => RevData (Some "170102")))
                    on_the_equator world0
     = ((on_the_equator, false), world0).
Proof.
  split.
  - split; discriminate.
  - apply (falsy_coordinates_skipped
             (mkService (fun _ _ => FwdFailure)
                        (fun _ _ _ => RevData (Some "170102")))
             on_the_equator world0).
    left. reflexivity.
Defined.

(* ===================================================================== *)
(** * The resolution loop *)
(* ===================================================================== *)

Lemma world_eta (w : world) : mkWorld (requests w) (trace w) = w.
Proof. destruct w. reflexivity. Qed.

Lemma forwards_app (t1 t2 : list event) :
  forwards (t1 ++ t2)%list = (forwards t1 ++ forwards t2)%list.
Proof.
  induction t1 as [|e t1 IH]; simpl.
  - reflexivity.
  - destruct e; simpl; rewrite IH; reflexivity.
Qed.

Section Loop.

Variable svc : service.

Import Orchestrator.

(** One call of the forward client: the answer depends on the number of
    requests issued so far, and one request is added to the trace unless
    the query is empty. *)
Lemma Fix_geocodeAddress_eq (q : string) (w : world) :
  Fix.geocodeAddress svc q w
  = (answer svc (requests w) q,
     mkWorld (issued (requests w) q)
             (trace w ++ (if nonempty q then [EvForward (Fix.expand q)]
                          else []))%list).
Proof.
  unfold Fix.geocodeAddress, answer, issued.
  destruct (nonempty q); simpl.
  - reflexivity.
  - unfold ret. rewrite app_nil_r, world_eta. reflexivity.
Qed.

(** The three ways one candidate can go. *)
Lemma try_queries_accept (q : string) (qs : list string)
      (p : PropertyRecord) (w : world) :
  validated q (answer svc (requests w) q) = true ->
  Fix.try_queries svc (q :: qs) p w
  = ((set_coords p (c_lat (answer svc (requests w) q))
                   (c_lon (answer svc (requests w) q)), true),
     snd (Fix.geocodeAddress svc q w)).
Proof.
  unfold validated, returned. intros H.
  apply andb_true_iff in H. destruct H as [Hr Hs].
  apply negb_true_iff in Hs.
  simpl. unfold bind. rewrite Fix_geocodeAddress_eq. simpl.
  rewrite Hr, Hs. reflexivity.
Qed.

Lemma try_queries_suspicious (q : string) (qs : list string)
      (p : PropertyRecord) (w : world) :
  returned (answer svc (requests w) q) = true ->
  Fix.suspicious q (answer svc (requests w) q) = true ->
  Fix.try_queries svc (q :: qs) p w
  = Fix.try_queries svc qs p (snd (Fix.geocodeAddress svc q w)).
Proof.
  unfold returned. intros Hr Hs.
  simpl. unfold bind. rewrite Fix_geocodeAddress_eq. simpl.
  rewrite Hr, Hs. reflexivity.
Qed.

Lemma try_queries_no_result (q : string) (qs : list string)
      (p : PropertyRecord) (w : world) :
  returned (answer svc (requests w) q) = false ->
  Fix.try_queries svc (q :: qs) p w
  = Fix.try_queries svc qs p
      (snd (sleep 1000 (snd (Fix.geocodeAddress svc q w)))).
Proof.
  unfold returned. intros Hr.
  simpl. unfold bind. rewrite Fix_geocodeAddress_eq. simpl.
  rewrite Hr. reflexivity.
Qed.

Lemma validated_cases (q : string) (c : coords) :
  validated q c = false ->
  (returned c = true /\ Fix.suspicious q c = true) \/ returned c = false.
Proof.
  unfold validated.
  destruct (returned c), (Fix.suspicious q c); simpl; intros H;
    try discriminate H; auto.
Qed.

(** The loop hands back what accepting the first validated result gives. *)
Lemma try_queries_result (qs : list string) (p : PropertyRecord) :
  forall w,
    fst (Fix.try_queries svc qs p w)
    = accept p (first_validated svc (requests w) qs).
Proof.
  induction qs as [|q qs IH]; intros w.
  - reflexivity.
  - cbn [first_validated].
    destruct (validated q (answer svc (requests w) q)) eqn:Hv.
    + rewrite try_queries_accept by exact Hv. reflexivity.
    + destruct (validated_cases _ _ Hv) as [[Hr Hs]|Hr].
      * rewrite try_queries_suspicious by assumption. rewrite IH.
        rewrite Fix_geocodeAddress_eq. reflexivity.
      * rewrite try_queries_no_result by assumption. rewrite IH.
        rewrite Fix_geocodeAddress_eq. reflexivity.
Qed.

(** The requests of the loop are those of the tried candidates, in the
    order of the list. *)
Lemma try_queries_requests (qs : list string) (p : PropertyRecord) :
  forall w,
    forwards (trace (snd (Fix.try_queries svc qs p w)))
    = (forwards (trace w)
       ++ map Fix.expand (filter nonempty (tried svc (requests w) qs)))%list.
Proof.
  assert (Hone : forall q w,
    forwards (trace (snd (Fix.geocodeAddress svc q w)))
    = (forwards (trace w)
       ++ map Fix.expand (filter nonempty [q]))%list).
  { intros q w. rewrite Fix_geocodeAddress_eq. simpl.
    rewrite forwards_app. destruct (nonempty q); reflexivity. }
  induction qs as [|q qs IH]; intros w.
  - simpl. rewrite app_nil_r. reflexivity.
  - cbn [tried].
    destruct (validated q (answer svc (requests w) q)) eqn:Hv.
    + rewrite try_queries_accept by exact Hv. cbn [snd]. apply Hone.
    + change (q :: tried svc (issued (requests w) q) qs)
        with ([q] ++ tried svc (issued (requests w) q) qs)%list.
      rewrite filter_app, map_app, app_assoc, <- Hone.
      destruct (validated_cases _ _ Hv) as [[Hr Hs]|Hr].
      * rewrite try_queries_suspicious by assumption. rewrite IH.
        rewrite Fix_geocodeAddress_eq. reflexivity.
      * rewrite try_queries_no_result by assumption. rewrite IH.
        rewrite Fix_geocodeAddress_eq. simpl.
        rewrite forwards_app, app_nil_r. reflexivity.
Qed.

Lemma tried_incl (qs : list string) :
  forall n q, In q (tried svc n qs) -> In q qs.
Proof.
  induction qs as [|q0 qs IH]; intros n q H.
  - destruct H.
  - cbn [tried] in H. destruct H as [H|H]; [left; exact H|].
    destruct (validated q0 (answer svc n q0)); [destruct H|].
    right. apply (IH _ _ H).
Qed.

(** For the candidates of a record the requests are the tried candidates
    themselves. *)
Lemma tried_queries_sent (p : PropertyRecord) (n : nat) :
  map Fix.expand (filter nonempty (tried svc n (Fix.queries p)))
  = tried svc n (Fix.queries p).
Proof.
  assert (H : forall l : list string,
             (forall q, In q l -> In q (Fix.queries p)) ->
             map Fix.expand (filter nonempty l) = l).
  { induction l as [|q l IH]; intros Hin.
    - reflexivity.
    - simpl. rewrite (queries_nonempty p q) by (apply Hin; left; reflexivity).
      simpl. rewrite (expand_queries p q) by (apply Hin; left; reflexivity).
      rewrite IH; [reflexivity|].
      intros q' Hq'. apply Hin. right. exact Hq'. }
  apply H. intros q Hq. apply (tried_incl _ _ _ Hq).
Qed.

Lemma tried_prefix (qs : list string) :
  forall n, exists rest, qs = (tried svc n qs ++ rest)%list.
Proof.
  induction qs as [|q qs IH]; intros n.
  - exists []. reflexivity.
  - cbn [tried]. destruct (validated q (answer svc n q)).
    + exists qs. reflexivity.
    + destruct (IH (issued n q)) as [rest Hrest].
      exists rest. simpl. rewrite <- Hrest. reflexivity.
Qed.

End Loop.

(** ** The loop against the resolution as it is described *)

Lemma truthy_usable (c : candidate) :
  JsNumber.truthy (Some (cand_lat c)) = Resolution.usable c.
Proof.
  unfold JsNumber.truthy, JsNumber.truthy_float, Resolution.usable,
    PrimFloat.is_zero, PrimFloat.is_nan.
  change PrimFloat.zero with 0%float.
  destruct (PrimFloat.eqb (cand_lat c) 0), (PrimFloat.eqb (cand_lat c)
                                              (cand_lat c)); reflexivity.
Qed.

Lemma validated_candidate (q : string) (c : candidate) :
  Orchestrator.validated q (mkCoords (Some (cand_lat c)) (Some (cand_lon c)))
  = Resolution.usable c && negb (Resolution.suspicious q c).
Proof.
  unfold Orchestrator.validated, Orchestrator.returned. cbn [c_lat].
  rewrite truthy_usable. reflexivity.
Qed.

Section Described.

Variable svc : service.

(** The candidates of the list are sent as they are. *)
Variable qs0 : list string.
Hypothesis sent_as_built :
  forall q, In q qs0 -> nonempty q = true /\ Fix.expand q = q.

Lemma answer_as_built (n : nat) (q : string) :
  In q qs0 ->
  Orchestrator.answer svc n q = first_result (forward svc n q).
Proof.
  intros Hin. destruct (sent_as_built q Hin) as [Hne Hex].
  unfold Orchestrator.answer. rewrite Hne, Hex. reflexivity.
Qed.

Lemma accept_first_accepted (p : PropertyRecord) (qs : list string) :
  (forall q, In q qs -> In q qs0) ->
  forall n,
    Orchestrator.accept p (Orchestrator.first_validated svc n qs)
    = match Resolution.first_accepted svc n qs with
      | Some c =>
          (mkProperty (title p) (url p) (image p) (description p)
                      (address p) (location_field p)
                      (Some (cand_lat c)) (Some (cand_lon c)) (zip_code p),
           true)
      | None => (p, false)
      end.
Proof.
  induction qs as [|q qs IH]; intros Hsub n.
  - reflexivity.
  - assert (Hq : In q qs0) by (apply Hsub; left; reflexivity).
    assert (Hrest : forall q', In q' qs -> In q' qs0).
    { intros q' H. apply Hsub. right. exact H. }
    cbn [Orchestrator.first_validated Resolution.first_accepted].
    rewrite (answer_as_built n q Hq).
    assert (Hn : Orchestrator.issued n q = S n).
    { unfold Orchestrator.issued.
      rewrite (proj1 (sent_as_built q Hq)). reflexivity. }
    rewrite Hn.
    destruct (forward svc n q) as [|[|c data]];
      cbn [first_result Resolution.returned].
    + apply (IH Hrest).
    + apply (IH Hrest).
    + rewrite validated_candidate.
      destruct (Resolution.usable c && negb (Resolution.suspicious q c)).
      * reflexivity.
      * apply (IH Hrest).
Qed.

Lemma tried_asked (qs : list string) :
  (forall q, In q qs -> In q qs0) ->
  forall n, Orchestrator.tried svc n qs = Resolution.asked svc n qs.
Proof.
  induction qs as [|q qs IH]; intros Hsub n.
  - reflexivity.
  - assert (Hq : In q qs0) by (apply Hsub; left; reflexivity).
    assert (Hrest : forall q', In q' qs -> In q' qs0).
    { intros q' H. apply Hsub. right. exact H. }
    cbn [Orchestrator.tried Resolution.asked].
    rewrite (answer_as_built n q Hq).
    assert (Hn : Orchestrator.issued n q = S n).
    { unfold Orchestrator.issued.
      rewrite (proj1 (sent_as_built q Hq)). reflexivity. }
    rewrite Hn. f_equal.
    destruct (forward svc n q) as [|[|c data]];
      cbn [first_result Resolution.returned].
    + apply (IH Hrest).
    + apply (IH Hrest).
    + rewrite validated_candidate.
      destruct (Resolution.usable c && negb (Resolution.suspicious q c)).
      * reflexivity.
      * apply (IH Hrest).
Qed.

End Described.

Lemma asked_prefix (svc : service) (qs : list string) :
  forall n, exists rest, qs = (Resolution.asked svc n qs ++ rest)%list.
Proof.
  induction qs as [|q qs IH]; intros n.
  - exists []. reflexivity.
  - cbn [Resolution.asked].
    destruct (Resolution.returned (forward svc n q)) as [c|].
    + destruct (Resolution.usable c && negb (Resolution.suspicious q c)).
      * exists qs. reflexivity.
      * destruct (IH (S n)) as [rest Hrest]. exists rest.
        simpl. rewrite <- Hrest. reflexivity.
    + destruct (IH (S n)) as [rest Hrest]. exists rest.
      simpl. rewrite <- Hrest. reflexivity.
Qed.

Lemma queries_sent_as_built (p : PropertyRecord) (q : string) :
  In q (Fix.queries p) -> nonempty q = true /\ Fix.expand q = q.
Proof.
  intros H. split; [apply (queries_nonempty p q H)|].
  apply (expand_queries p q H).
Qed.

(** One candidate whose result is returned with a usable latitude. *)
Lemma answer_returned (svc : service) (n : nat) (q : string)
      (c : candidate) (data : list candidate) :
  nonempty q = true ->
  forward svc n (Fix.expand q) = FwdData (c :: data) ->
  Orchestrator.answer svc n q
  = mkCoords (Some (cand_lat c)) (Some (cand_lon c)).
Proof.
  intros Hne Hf. unfold Orchestrator.answer. rewrite Hne, Hf. reflexivity.
Qed.

Lemma try_queries_rejects (svc : service) (q : string) (rest : list string)
      (p : PropertyRecord) (w : world) (c : candidate)
      (data : list candidate) :
  nonempty q = true ->
  forward svc (requests w) (Fix.expand q) = FwdData (c :: data) ->
  Resolution.usable c = true ->
  Resolution.suspicious q c = true ->
  Fix.try_queries svc (q :: rest) p w
  = Fix.try_queries svc rest p
      (mkWorld (S (requests w)) (trace w ++ [EvForward (Fix.expand q)])).
Proof.
  intros Hne Hf Hu Hs.
  rewrite try_queries_suspicious.
  - rewrite Fix_geocodeAddress_eq. unfold Orchestrator.issued.
    rewrite Hne. reflexivity.
  - rewrite (answer_returned svc _ q c data Hne Hf).
    unfold Orchestrator.returned. cbn [c_lat]. rewrite truthy_usable.
    exact Hu.
  - rewrite (answer_returned svc _ q c data Hne Hf). exact Hs.
Qed.

Lemma try_queries_accepts (svc : service) (q : string) (rest : list string)
      (p : PropertyRecord) (w : world) (c : candidate)
      (data : list candidate) :
  nonempty q = true ->
  forward svc (requests w) (Fix.expand q) = FwdData (c :: data) ->
  Resolution.usable c = true ->
  Resolution.suspicious q c = false ->
  fst (Fix.try_queries svc (q :: rest) p w)
  = (mkProperty (title p) (url p) (image p) (description p)
                (address p) (location_field p)
                (Some (cand_lat c)) (Some (cand_lon c)) (zip_code p),
     true).
Proof.
  intros Hne Hf Hu Hs.
  rewrite try_queries_accept.
  - rewrite (answer_returned svc _ q c data Hne Hf). reflexivity.
  - rewrite (answer_returned svc _ q c data Hne Hf), validated_candidate.
    rewrite Hu, Hs. reflexivity.
Qed.

(** C3 (as amended).  The re-resolution of a selected record asks the
    provider for the candidates of the record in their order, each as it
    was built, up to and including the first candidate whose result is
    returned with a usable latitude (neither [0] nor [NaN]) and is not
    suspicious; it accepts that result by writing its latitude and its
    longitude over the coordinates of the record, every other field
    staying as it was, and reports the record as found; when there is no
    such candidate the record stays as it was.  A returned result with a
    usable latitude under [41.0] for a query that holds ["Michigan"] is
    rejected: the loop goes on with the next candidate, the record
    untouched.  For such a query a latitude of [32.0] is rejected and a
    latitude of [42.3] is accepted. *)
Theorem resolution_accepts_first_usable_validated :
  forall (svc : service) (p : PropertyRecord) (w : world),
    (Fix.needsUpdate p = true ->
     forwards (trace (snd (Fix.process svc p w)))
     = (forwards (trace w)
        ++ Resolution.asked svc (requests w) (Fix.queries p))%list
     /\ (exists rest,
           Fix.queries p
           = (Resolution.asked svc (requests w) (Fix.queries p)
              ++ rest)%list)
     /\ fst (Fix.process svc p w)
        = match Resolution.first_accepted svc (requests w) (Fix.queries p)
          with
          | Some c =>
              (mkProperty (title p) (url p) (image p) (description p)
                          (address p) (location_field p)
                          (Some (cand_lat c)) (Some (cand_lon c))
                          (zip_code p),
               true)
          | None => (p, false)
          end)
    /\ (forall q rest c data,
          nonempty q = true ->
          forward svc (requests w) (Fix.expand q) = FwdData (c :: data) ->
          Resolution.usable c = true ->
          includes q "Michigan" = true ->
          PrimFloat.ltb (cand_lat c) 41.0%float = true ->
          Fix.try_queries svc (q :: rest) p w
          = Fix.try_queries svc rest p
              (mkWorld (S (requests w))
                       (trace w ++ [EvForward (Fix.expand q)])))
    /\ (forall q rest lo data,
          nonempty q = true ->
          includes q "Michigan" = true ->
          (forward svc (requests w) (Fix.expand q)
           = FwdData (mkCandidate 32.0 lo :: data) ->
           Fix.try_queries svc (q :: rest) p w
           = Fix.try_queries svc rest p
               (mkWorld (S (requests w))
                        (trace w ++ [EvForward (Fix.expand q)])))
          /\ (forward svc (requests w) (Fix.expand q)
              = FwdData (mkCandidate 42.3 lo :: data) ->
              fst (Fix.try_queries svc (q :: rest) p w)
              = (mkProperty (title p) (url p) (image p) (description p)
                            (address p) (location_field p)
                            (Some 42.3%float) (Some lo) (zip_code p),
                 true))).
Proof.
  intros svc p w. split; [|split].
  - intros Hn. unfold Fix.process. rewrite Hn.
    split; [|split].
    + rewrite try_queries_requests, tried_queries_sent.
      rewrite (tried_asked svc (Fix.queries p) (queries_sent_as_built p)
                 (Fix.queries p) (fun q H => H)).
      reflexivity.
    + apply asked_prefix.
    + rewrite try_queries_result.
      apply (accept_first_accepted svc (Fix.queries p)
               (queries_sent_as_built p) p (Fix.queries p) (fun q H => H)).
  - intros q rest c data Hne Hf Hu Hm Hl.
    apply (try_queries_rejects svc q rest p w c data Hne Hf Hu).
    unfold Resolution.suspicious, Resolution.REGION, Resolution.FLOOR.
    rewrite Hm, Hl. reflexivity.
  - intros q rest lo data Hne Hm. split.
    + intros Hf.
      apply (try_queries_rejects svc q rest p w _ data Hne Hf eq_refl).
      unfold Resolution.suspicious, Resolution.REGION. rewrite Hm.
      reflexivity.
    + intros Hf.
      apply (try_queries_accepts svc q rest p w _ data Hne Hf eq_refl).
      unfold Resolution.suspicious. cbn [cand_lat].
      apply andb_false_r.
Qed.

Lemma resolution_accepts_first_usable_validated_witness :
  Fix.needsUpdate meadows_michigan = true
  /\ fst (Fix.process wrong_then_right meadows_michigan world0)
     = (mkProperty (Some "The Meadows")
          "https://gshrealestate.com/portfolio/a/" None None
          "Canton, Michigan" (Some "Canton, Michigan")
          (Some 42.3%float) (Some (-83.4)%float) None,
        true)
  /\ forwards (trace (snd (Fix.process wrong_then_right meadows_michigan
                             world0)))
     = ["Canton, Michigan, USA"; "The Meadows, Canton, Michigan, USA"].
Proof.
  split; [reflexivity|]. split.
  - rewrite (proj2 (proj2 (proj1 (resolution_accepts_first_usable_validated
                                    wrong_then_right meadows_michigan
                                    world0) eq_refl))).
    reflexivity.
  - rewrite (proj1 (proj1 (resolution_accepts_first_usable_validated
                             wrong_then_right meadows_michigan world0)
                      eq_refl)).
    reflexivity.
Defined.

(** C3 fails as stated: a result is returned for the only candidate of
    the record, it is not suspicious, and it is not accepted, because its
    latitude is [0]: the loop treats it as no result, pauses, and leaves
    the record without coordinates. *)
Lemma resolution_counterexample :
  Fix.needsUpdate equator_house = true
  /\ Fix.queries equator_house = ["Equator House, USA"]
  /\ Resolution.returned (forward on_the_line 0 "Equator House, USA")
     = Some (mkCandidate 0 (-78.45))
  /\ Resolution.suspicious "Equator House, USA" (mkCandidate 0 (-78.45))
     = false
  /\ fst (Fix.process on_the_line equator_house world0)
     = (equator_house, false)
  /\ trace (snd (Fix.process on_the_line equator_house world0))
     = [EvForward "Equator House, USA"; EvSleep 1000].
Proof. repeat split. Qed.

(* ===================================================================== *)
(** * Total failure of the re-resolution *)
(* ===================================================================== *)

Section Failure.

Variable svc : service.

Import Orchestrator.

Lemma answer_returned_present (n : nat) (q : string) :
  returned (answer svc n q) = true ->
  c_lat (answer svc n q) <> None /\ c_lon (answer svc n q) <> None.
Proof.
  unfold returned, answer.
  destruct (nonempty q); [|discriminate].
  destruct (forward svc n (Fix.expand q)) as [|[|c data]]; simpl;
    try discriminate.
  intros _. split; discriminate.
Qed.

Lemma first_validated_some (qs : list string) :
  forall n q c,
    first_validated svc n qs = Some (q, c) ->
    exists n', c = answer svc n' q /\ validated q c = true.
Proof.
  induction qs as [|q0 qs IH]; intros n q c; simpl.
  - discriminate.
  - destruct (validated q0 (answer svc n q0)) eqn:Hv.
    + intros H. injection H as Hq Hc. subst q0 c.
      exists n. split; [reflexivity|exact Hv].
    + apply IH.
Qed.

(** No candidate accepted: the record is the one that came in. *)
Lemma try_queries_not_found (qs : list string) (p : PropertyRecord)
      (w : world) :
  snd (fst (Fix.try_queries svc qs p w)) = false ->
  fst (fst (Fix.try_queries svc qs p w)) = p.
Proof.
  rewrite try_queries_result.
  destruct (first_validated svc (requests w) qs) as [[q c]|]; simpl.
  - discriminate.
  - reflexivity.
Qed.

Lemma process_not_found (p : PropertyRecord) (w : world) :
  snd (fst (Fix.process svc p w)) = false ->
  fst (fst (Fix.process svc p w)) = p.
Proof.
  unfold Fix.process. destruct (Fix.needsUpdate p).
  - apply try_queries_not_found.
  - reflexivity.
Qed.

(** A present pair stays present in the record. *)
Lemma process_keeps_present (p : PropertyRecord) (w : world) :
  coords_present p -> coords_present (fst (fst (Fix.process svc p w))).
Proof.
  intros Hp. unfold Fix.process. destruct (Fix.needsUpdate p).
  - rewrite try_queries_result.
    destruct (first_validated svc (requests w) (Fix.queries p))
      as [[q c]|] eqn:Hf; simpl.
    + destruct (first_validated_some _ _ _ _ Hf) as [n' [Hc Hv]].
      unfold validated in Hv. apply andb_true_iff in Hv.
      destruct Hv as [Hr _]. subst c.
      apply answer_returned_present in Hr. exact Hr.
    + exact Hp.
  - exact Hp.
Qed.

Lemma Fix_run_length (ps : list PropertyRecord) :
  forall w, List.length (fst (fst (Fix.run svc ps w))) = List.length ps.
Proof.
  induction ps as [|p ps IH]; intros w; simpl.
  - reflexivity.
  - unfold bind. destruct (Fix.process svc p w) as [r w1].
    specialize (IH w1). destruct (Fix.run svc ps w1) as [rest w2].
    simpl in *. rewrite IH. reflexivity.
Qed.

Lemma Fix_run_cons (p : PropertyRecord) (ps : list PropertyRecord)
      (w : world) :
  fst (fst (Fix.run svc (p :: ps) w))
  = fst (fst (Fix.process svc p w))
    :: fst (fst (Fix.run svc ps (snd (Fix.process svc p w)))).
Proof.
  simpl. unfold bind. destruct (Fix.process svc p w) as [r w1].
  cbn [fst snd]. destruct (Fix.run svc ps w1) as [rest w2]. reflexivity.
Qed.

End Failure.

(** C4.  When the re-resolution of a record ends without an accepted
    result, the record (its coordinates included) is exactly the one that
    came in; a record whose pair was present never gets a [null]
    component from the re-resolution; and the run goes on with the
    properties that follow, every property of the collection staying in
    it. *)
Theorem failed_resolution_keeps_coordinates :
  forall (svc : service) (p : PropertyRecord) (ps : list PropertyRecord)
         (w : world),
    (snd (fst (Fix.process svc p w)) = false ->
     fst (fst (Fix.process svc p w)) = p
     /\ fst (fst (Fix.run svc (p :: ps) w))
        = p :: fst (fst (Fix.run svc ps (snd (Fix.process svc p w)))))
    /\ (coords_present p ->
        coords_present (fst (fst (Fix.process svc p w))))
    /\ List.length (fst (fst (Fix.run svc (p :: ps) w)))
       = List.length (p :: ps).
Proof.
  intros svc p ps w. split; [|split].
  - intros Hf. split.
    + apply process_not_found. exact Hf.
    + rewrite Fix_run_cons, process_not_found by exact Hf. reflexivity.
  - apply process_keeps_present.
  - apply Fix_run_length.
Qed.

Lemma failed_resolution_keeps_coordinates_witness :
  snd (fst (Fix.process no_match suspicious_on_record world0)) = false
  /\ fst (fst (Fix.run no_match
                 [suspicious_on_record; suspicious_on_record] world0))
     = [suspicious_on_record; suspicious_on_record]
  /\ coords_present (fst (fst (Fix.process wrong_then_right
                                 suspicious_on_record world0))).
Proof.
  split; [reflexivity|]. split.
  - rewrite (proj2 (proj1 (failed_resolution_keeps_coordinates
                             no_match suspicious_on_record
                             [suspicious_on_record] world0) eq_refl)).
    reflexivity.
  - apply (proj1 (proj2 (failed_resolution_keeps_coordinates
                           wrong_then_right suspicious_on_record [] world0))).
    split; discriminate.
Defined.

(* ===================================================================== *)
(** * Pacing *)
(* ===================================================================== *)

Lemma paced_from_app (t1 t2 : list event) :
  forall since,
    paced_from since (t1 ++ t2)
    = paced_from since t1 && paced_from (elapsed since t1) t2.
Proof.
  induction t1 as [|e t1 IH]; intros since; simpl.
  - reflexivity.
  - destruct e; simpl.
    + apply IH.
    + destruct since; rewrite IH; [rewrite andb_assoc|]; reflexivity.
    + destruct since; rewrite IH; [rewrite andb_assoc|]; reflexivity.
Qed.

Lemma elapsed_app (t1 t2 : list event) :
  forall since, elapsed since (t1 ++ t2) = elapsed (elapsed since t1) t2.
Proof.
  induction t1 as [|e t1 IH]; intros since; simpl.
  - reflexivity.
  - destruct e; apply IH.
Qed.

Section Steady.

Variable I : option Z -> Prop.

Lemma steady_nil : steady I [].
Proof. intros since H. split; [reflexivity|exact H]. Qed.

Lemma steady_app (t1 t2 : list event) :
  steady I t1 -> steady I t2 -> steady I (t1 ++ t2).
Proof.
  intros H1 H2 since Hs.
  destruct (H1 since Hs) as [Hp1 Hi1].
  destruct (H2 _ Hi1) as [Hp2 Hi2].
  rewrite paced_from_app, elapsed_app, Hp1, Hp2. split; [reflexivity|exact Hi2].
Qed.

Lemma emits_ret {A} (a : A) : emits (ret a) (steady I).
Proof.
  intros w. exists []. split.
  - simpl. rewrite app_nil_r. reflexivity.
  - apply steady_nil.
Qed.

Lemma emits_bind {A B} (m : M A) (k : A -> M B) :
  emits m (steady I) -> (forall a, emits (k a) (steady I)) ->
  emits (bind m k) (steady I).
Proof.
  intros Hm Hk w. unfold bind.
  destruct (Hm w) as [e1 [Ht1 Hs1]].
  destruct (m w) as [a w1]. simpl in Ht1.
  destruct (Hk a w1) as [e2 [Ht2 Hs2]].
  exists (e1 ++ e2)%list. split.
  - rewrite Ht2, Ht1, app_assoc. reflexivity.
  - apply steady_app; assumption.
Qed.

(** A stretch that is steady from the start of a run makes a paced run. *)
Lemma steady_paced {A} (m : M A) :
  I None -> emits m (steady I) -> paced (trace (snd (m world0))) = true.
Proof.
  intros H0 Hm. destruct (Hm world0) as [evs [Ht Hs]].
  rewrite Ht. simpl. apply (Hs None H0).
Qed.

End Steady.

(** ** The initial geocode paces inside its client *)

Lemma Scrape_geocodeAddress_trace (svc : service) (q : string) (w : world) :
  trace (snd (Scrape.geocodeAddress svc q w))
  = (trace w ++ [EvSleep 1000; EvForward q])%list.
Proof.
  unfold Scrape.geocodeAddress, bind, sleep, fetch_forward, ret. simpl.
  rewrite <- app_assoc. reflexivity.
Qed.

Lemma steady_rested_request (q : string) :
  steady rested [EvSleep 1000; EvForward q].
Proof.
  intros [d|] H; simpl in *.
  - split; [|lia]. rewrite andb_true_r. apply Z.leb_le. lia.
  - split; [reflexivity|lia].
Qed.

Lemma steady_rested_pause (ms : Z) :
  (0 <= ms)%Z -> steady rested [EvSleep ms].
Proof.
  intros Hms [d|] H; simpl in *.
  - split; [reflexivity|lia].
  - split; [reflexivity|exact I].
Qed.

Lemma Scrape_geocodeAddress_paces (svc : service) (q : string) :
  emits (Scrape.geocodeAddress svc q) (steady rested).
Proof.
  intros w. exists [EvSleep 1000; EvForward q]. split.
  - apply Scrape_geocodeAddress_trace.
  - apply steady_rested_request.
Qed.

Lemma sleep_paces (ms : Z) :
  (0 <= ms)%Z -> emits (sleep ms) (steady rested).
Proof.
  intros Hms w. exists [EvSleep ms]. split.
  - reflexivity.
  - apply steady_rested_pause. exact Hms.
Qed.

Lemma Scrape_geocode_paces (svc : service) (gq loc : option string) :
  emits (Scrape.geocode svc gq loc) (steady rested).
Proof.
  unfold Scrape.geocode.
  destruct gq as [q|]; [|apply emits_ret].
  destruct (nonempty q); [|apply emits_ret].
  apply emits_bind; [apply Scrape_geocodeAddress_paces|].
  intros c. destruct loc as [l|]; [|apply emits_ret].
  destruct (negb (JsNumber.truthy (c_lat c)) && nonempty l).
  - apply Scrape_geocodeAddress_paces.
  - apply emits_ret.
Qed.

Lemma Scrape_page_paces (svc : service) (pg : Scrape.page) :
  emits (Scrape.scrape_page svc pg) (steady rested).
Proof.
  unfold Scrape.scrape_page.
  destruct (Scrape.plan pg) as [[a gq]|]; [|apply emits_ret].
  apply emits_bind; [apply Scrape_geocode_paces|].
  intros c. apply emits_bind; [apply sleep_paces; lia|].
  intros _. apply emits_ret.
Qed.

Lemma Scrape_run_paces (svc : service) (pgs : list Scrape.page) :
  emits (Scrape.run svc pgs) (steady rested).
Proof.
  induction pgs as [|pg pgs IH]; simpl.
  - apply emits_ret.
  - apply emits_bind; [apply Scrape_page_paces|].
    intros [p|]; [|apply emits_ret].
    apply emits_bind; [exact IH|]. intros rest. apply emits_ret.
Qed.

(** ** The postal enrichment paces in its loop *)

Lemma steady_ready_request (e : event) :
  (forall ms, e <> EvSleep ms) -> steady ready [e; EvSleep 1000].
Proof.
  intros He [d|] H; destruct e; simpl in *;
    try (exfalso; eapply He; reflexivity).
  - split; [|lia]. rewrite andb_true_r. apply Z.leb_le. exact H.
  - split; [|lia]. rewrite andb_true_r. apply Z.leb_le. exact H.
  - split; [reflexivity|lia].
  - split; [reflexivity|lia].
Qed.

Lemma steady_ready_pause : steady ready [EvSleep 1000].
Proof.
  intros [d|] H; simpl in *.
  - split; [reflexivity|lia].
  - split; [reflexivity|exact I].
Qed.

(** The client of the enrichment adds its request and nothing else. *)
Lemma reverseGeocode_trace (svc : service) (x y : float) (w : world) :
  JsNumber.truthy_float x = true -> JsNumber.truthy_float y = true ->
  trace (snd (AddZip.reverseGeocode svc (Some x) (Some y) w))
  = (trace w ++ [EvReverse x y])%list.
Proof.
  intros Hx Hy. unfold AddZip.reverseGeocode. rewrite Hx, Hy. reflexivity.
Qed.

Lemma AddZip_process_trace (svc : service) (p : PropertyRecord) (w : world) :
  trace (snd (AddZip.process svc p w)) = trace w
  \/ exists x y,
       trace (snd (AddZip.process svc p w))
       = (trace w ++ [EvReverse x y; EvSleep 1000])%list.
Proof.
  unfold AddZip.process.
  destruct (negb (JsString.truthy (zip_code p))); [|left; reflexivity].
  destruct (lat p) as [x|]; [|left; reflexivity].
  destruct (lon p) as [y|];
    [|rewrite andb_false_r; left; reflexivity].
  unfold JsNumber.truthy.
  destruct (JsNumber.truthy_float x) eqn:Hx; [|left; reflexivity].
  destruct (JsNumber.truthy_float y) eqn:Hy; [|left; reflexivity].
  right. exists x, y.
  cbn [andb]. unfold bind.
  pose proof (reverseGeocode_trace svc x y w Hx Hy) as Ht.
  destruct (AddZip.reverseGeocode svc (Some x) (Some y) w) as [zip w1].
  simpl in Ht. simpl. rewrite Ht, <- app_assoc. reflexivity.
Qed.

Lemma AddZip_process_paces (svc : service) (p : PropertyRecord) :
  emits (AddZip.process svc p) (steady ready).
Proof.
  intros w. destruct (AddZip_process_trace svc p w) as [H|[x [y H]]].
  - exists []. split; [rewrite app_nil_r; exact H|apply steady_nil].
  - exists [EvReverse x y; EvSleep 1000]. split; [exact H|].
    apply steady_ready_request. discriminate.
Qed.

Lemma AddZip_run_paces (svc : service) (ps : list PropertyRecord) :
  emits (AddZip.run svc ps) (steady ready).
Proof.
  induction ps as [|p ps IH]; simpl.
  - apply emits_ret.
  - apply emits_bind; [apply AddZip_process_paces|].
    intros r. apply emits_bind; [exact IH|]. intros rest. apply emits_ret.
Qed.

(** ** The re-resolution paces in its loop, after a candidate without
    result *)

Lemma Fix_try_queries_paces (svc : service) (qs : list string)
      (p : PropertyRecord) :
  never_returns svc -> emits (Fix.try_queries svc qs p) (steady ready).
Proof.
  intros Hnever. induction qs as [|q qs IH].
  - apply emits_ret.
  - intros w. rewrite try_queries_no_result by apply Hnever.
    match goal with |- context [Fix.try_queries svc qs p ?w1] =>
      destruct (IH w1) as [evs [Ht Hs]] end.
    rewrite Fix_geocodeAddress_eq in *. simpl in *.
    destruct (nonempty q).
    + exists ([EvForward (Fix.expand q); EvSleep 1000] ++ evs)%list. split.
      * rewrite Ht, <- !app_assoc. reflexivity.
      * apply steady_app; [|exact Hs].
        apply steady_ready_request. discriminate.
    + exists ([EvSleep 1000] ++ evs)%list. split.
      * rewrite Ht, app_nil_r, <- !app_assoc. reflexivity.
      * apply steady_app; [apply steady_ready_pause|exact Hs].
Qed.

Lemma Fix_run_paces (svc : service) (ps : list PropertyRecord) :
  never_returns svc -> emits (Fix.run svc ps) (steady ready).
Proof.
  intros Hnever. induction ps as [|p ps IH]; simpl.
  - apply emits_ret.
  - apply emits_bind.
    + unfold Fix.process. destruct (Fix.needsUpdate p).
      * apply Fix_try_queries_paces. exact Hnever.
      * apply emits_ret.
    + intros r. apply emits_bind; [exact IH|]. intros rest. apply emits_ret.
Qed.

Lemma no_match_never_returns : never_returns no_match.
Proof.
  intros n q. unfold Orchestrator.returned, Orchestrator.answer.
  destruct (nonempty q); reflexivity.
Qed.

(** C5 (as amended).  The initial geocode paces inside its client: every
    forward request is issued right after a pause of 1000 ms, so every run
    of it is paced.  The clients of the two other scripts take no pause;
    there the loop paces.  The enrichment loop pauses 1000 ms right after
    every reverse request, so every run of it is paced.  The re-resolution
    loop pauses 1000 ms after a candidate that returned no result, so a
    run in which no candidate returns a result is paced. *)
Theorem pacing_by_stage :
  forall svc : service,
    (forall q w,
       trace (snd (Scrape.geocodeAddress svc q w))
       = (trace w ++ [EvSleep 1000; EvForward q])%list)
    /\ (forall pgs, paced (trace (snd (Scrape.run svc pgs world0))) = true)
    /\ (forall p w,
          trace (snd (AddZip.process svc p w)) = trace w
          \/ exists x y,
               trace (snd (AddZip.process svc p w))
               = (trace w ++ [EvReverse x y; EvSleep 1000])%list)
    /\ (forall ps, paced (trace (snd (AddZip.run svc ps world0))) = true)
    /\ (forall q qs p w,
          Orchestrator.returned (Orchestrator.answer svc (requests w) q)
          = false ->
          Fix.try_queries svc (q :: qs) p w
          = Fix.try_queries svc qs p
              (snd (sleep 1000 (snd (Fix.geocodeAddress svc q w)))))
    /\ (never_returns svc ->
        forall ps, paced (trace (snd (Fix.run svc ps world0))) = true).
Proof.
  intros svc. repeat split.
  - apply Scrape_geocodeAddress_trace.
  - intros pgs. apply (steady_paced rested); [exact I|].
    apply Scrape_run_paces.
  - apply AddZip_process_trace.
  - intros ps. apply (steady_paced ready); [exact I|].
    apply AddZip_run_paces.
  - intros q qs p w H. apply try_queries_no_result. exact H.
  - intros Hnever ps. apply (steady_paced ready); [exact I|].
    apply Fix_run_paces. exact Hnever.
Qed.

Lemma pacing_by_stage_witness :
  never_returns no_match
  /\ paced (trace (snd (Fix.run no_match
                          [suspicious_on_record; meadows_michigan] world0)))
     = true.
Proof.
  split; [exact no_match_never_returns|].
  apply (proj2 (proj2 (proj2 (proj2 (proj2 (pacing_by_stage no_match)))))
           no_match_never_returns).
Defined.

(** C5 fails as stated: a suspicious result sends the re-resolution loop
    to the next candidate without a pause, and neither the forward client
    of the re-resolution nor the reverse client takes a pause of its
    own. *)
Lemma pacing_counterexample :
  trace (snd (Fix.run wrong_then_right [meadows_michigan] world0))
  = [EvForward "Canton, Michigan, USA";
     EvForward "The Meadows, Canton, Michigan, USA"]
  /\ paced (trace (snd (Fix.run wrong_then_right [meadows_michigan] world0)))
     = false
  /\ trace (snd (Fix.geocodeAddress found_in_michigan "Canton, MI, USA"
                   world0))
     = [EvForward "Canton, MI, USA"]
  /\ trace (snd (AddZip.reverseGeocode found_in_michigan
                   (Some 42.3%float) (Some (-83.4)%float) world0))
     = [EvReverse 42.3 (-83.4)].
Proof. repeat split. Qed.

(* ===================================================================== *)
(** * The coordinate pair *)
(* ===================================================================== *)

Section Pair.

Variable svc : service.
Hypothesis svc_finite : finite_service svc.

Lemma first_result_ok (n : nat) (q : string) :
  pair_ok (c_lat (first_result (forward svc n q)))
          (c_lon (first_result (forward svc n q))) = true.
Proof.
  pose proof (svc_finite n q) as H.
  destruct (forward svc n q) as [|[|c data]]; try reflexivity.
  simpl. unfold pair_ok. simpl. exact H.
Qed.

Lemma answer_ok (n : nat) (q : string) :
  pair_ok (c_lat (Orchestrator.answer svc n q))
          (c_lon (Orchestrator.answer svc n q)) = true.
Proof.
  unfold Orchestrator.answer. destruct (nonempty q).
  - apply first_result_ok.
  - reflexivity.
Qed.

Lemma Scrape_geocodeAddress_ok (q : string) (w : world) :
  pair_ok (c_lat (fst (Scrape.geocodeAddress svc q w)))
          (c_lon (fst (Scrape.geocodeAddress svc q w))) = true.
Proof.
  unfold Scrape.geocodeAddress, bind, sleep, fetch_forward, ret. simpl.
  apply first_result_ok.
Qed.

Lemma Scrape_geocode_ok (gq loc : option string) (w : world) :
  pair_ok (c_lat (fst (Scrape.geocode svc gq loc w)))
          (c_lon (fst (Scrape.geocode svc gq loc w))) = true.
Proof.
  unfold Scrape.geocode.
  destruct gq as [q|]; [|reflexivity].
  destruct (nonempty q); [|reflexivity].
  unfold bind.
  pose proof (Scrape_geocodeAddress_ok q w) as Hq.
  destruct (Scrape.geocodeAddress svc q w) as [c w1]. simpl in Hq.
  destruct loc as [l|]; [|exact Hq].
  destruct (negb (JsNumber.truthy (c_lat c)) && nonempty l).
  - apply Scrape_geocodeAddress_ok.
  - exact Hq.
Qed.

Lemma Scrape_page_ok (pg : Scrape.page) (w : world) (p : PropertyRecord) :
  fst (Scrape.scrape_page svc pg w) = Some p -> coords_ok p = true.
Proof.
  unfold Scrape.scrape_page.
  destruct (Scrape.plan pg) as [[a gq]|]; [|discriminate].
  unfold bind.
  pose proof (Scrape_geocode_ok gq (Scrape.find_location pg) w) as Hc.
  destruct (Scrape.geocode svc gq (Scrape.find_location pg) w) as [c w1].
  simpl. intros H. injection H as Hp. subst p. exact Hc.
Qed.

Lemma Fix_process_ok (p : PropertyRecord) (w : world) :
  coords_ok p = true -> coords_ok (fst (fst (Fix.process svc p w))) = true.
Proof.
  intros Hp. unfold Fix.process.
  destruct (Fix.needsUpdate p); [|exact Hp].
  rewrite try_queries_result.
  destruct (Orchestrator.first_validated svc (requests w) (Fix.queries p))
    as [[q c]|] eqn:Hf; simpl; [|exact Hp].
  destruct (first_validated_some svc _ _ _ _ Hf) as [n' [Hc _]].
  subst c. unfold coords_ok. simpl. apply answer_ok.
Qed.

End Pair.

(** The enrichment never writes a coordinate. *)
Lemma AddZip_process_coords (svc : service) (p : PropertyRecord) (w : world) :
  lat (fst (fst (AddZip.process svc p w))) = lat p
  /\ lon (fst (fst (AddZip.process svc p w))) = lon p.
Proof.
  unfold AddZip.process.
  destruct (negb (JsString.truthy (zip_code p))
            && JsNumber.truthy (lat p) && JsNumber.truthy (lon p));
    [|split; reflexivity].
  unfold bind.
  destruct (AddZip.reverseGeocode svc (lat p) (lon p) w) as [[z|] w1];
    simpl; [|split; reflexivity].
  destruct (nonempty z); split; reflexivity.
Qed.

(** Writing a well-formed pair to the file and reading it back gives a
    well-formed pair. *)
Lemma persist_ok (p : PropertyRecord) :
  coords_ok p = true -> coords_ok (persist p) = true.
Proof.
  unfold coords_ok, persist, pair_ok. simpl.
  destruct (lat p) as [x|], (lon p) as [y|]; simpl.
  - rewrite andb_true_iff. intros [Hx Hy]. rewrite Hx, Hy.
    destruct (PrimFloat.is_zero x), (PrimFloat.is_zero y); simpl;
      rewrite ?Hx, ?Hy; reflexivity.
  - rewrite andb_false_r. discriminate.
  - discriminate.
  - reflexivity.
Qed.

(** C6 (as amended).  When every result of the forward-geocode provider
    carries a latitude and a longitude that parse to finite numbers, the
    pair of a record made by the initial geocode is two finite numbers or
    two nulls, and the re-resolution keeps a pair so; the enrichment
    writes no coordinate; the file keeps such a pair so. *)
Theorem coordinates_stay_paired :
  forall svc : service,
    finite_service svc ->
    (forall pg w p,
       fst (Scrape.scrape_page svc pg w) = Some p -> coords_ok p = true)
    /\ (forall p w,
          coords_ok p = true ->
          coords_ok (fst (fst (Fix.process svc p w))) = true)
    /\ (forall p w,
          lat (fst (fst (AddZip.process svc p w))) = lat p
          /\ lon (fst (fst (AddZip.process svc p w))) = lon p)
    /\ (forall p, coords_ok p = true -> coords_ok (persist p) = true).
Proof.
  intros svc Hsvc. repeat split.
  - apply Scrape_page_ok. exact Hsvc.
  - apply Fix_process_ok. exact Hsvc.
  - apply AddZip_process_coords.
  - apply AddZip_process_coords.
  - apply persist_ok.
Qed.

Lemma found_in_michigan_finite : finite_service found_in_michigan.
Proof. intros n q. reflexivity. Qed.

Lemma coordinates_stay_paired_witness :
  finite_service found_in_michigan
  /\ coords_ok (fst (fst (Fix.process found_in_michigan
                            meadows_michigan world0))) = true.
Proof.
  split; [exact found_in_michigan_finite|].
  apply (proj1 (proj2 (coordinates_stay_paired
                         found_in_michigan found_in_michigan_finite))).
  reflexivity.
Defined.

(** C6 fails as stated: nothing checks what [parseFloat] hands back.  A
    longitude that does not parse is stored as [NaN] next to an accepted
    latitude, and is [null] in the file; a result without any number is
    stored as two [NaN] by the initial geocode. *)
Lemma coordinates_counterexample :
  coords_ok meadows_michigan = true
  /\ fst (fst (Fix.process half_parsed meadows_michigan world0))
     = set_coords meadows_michigan (Some 42.3%float) (Some PrimFloat.nan)
  /\ coords_ok (set_coords meadows_michigan
                  (Some 42.3%float) (Some PrimFloat.nan)) = false
  /\ lat (persist (set_coords meadows_michigan
                     (Some 42.3%float) (Some PrimFloat.nan)))
     = Some 42.3%float
  /\ lon (persist (set_coords meadows_michigan
                     (Some 42.3%float) (Some PrimFloat.nan)))
     = None
  /\ (exists p,
        fst (Scrape.scrape_page unparsed meadows_page world0) = Some p
        /\ lat p = Some PrimFloat.nan /\ lon p = Some PrimFloat.nan
        /\ coords_ok p = false).
Proof.
  repeat split. eexists. repeat split.
Qed.

(* ===================================================================== *)
(** * Idempotence of the postal enrichment *)
(* ===================================================================== *)

Section Enrichment.

Variable svc : service.

Lemma AddZip_reverseGeocode_eq (x y : float) (w : world) :
  JsNumber.truthy_float x = true -> JsNumber.truthy_float y = true ->
  fst (AddZip.reverseGeocode svc (Some x) (Some y) w)
  = postcode_of svc (requests w) x y.
Proof.
  intros Hx Hy. unfold AddZip.reverseGeocode, postcode_of.
  rewrite Hx, Hy. reflexivity.
Qed.

Lemma postcode_of_nonempty (n : nat) (x y : float) (z : string) :
  postcode_of svc n x y = Some z -> nonempty z = true.
Proof.
  unfold postcode_of.
  destruct (reverse svc n x y) as [|[z'|]]; try discriminate.
  destruct (nonempty z') eqn:Hz; [|discriminate].
  intros H. injection H as H. subst z'. exact Hz.
Qed.

Lemma AddZip_process_eq (p : PropertyRecord) (w : world) :
  fst (AddZip.process svc p w) = enrich svc (requests w) p.
Proof.
  unfold AddZip.process, enrich.
  destruct (lat p) as [x|] eqn:Hla.
  2:{ rewrite andb_false_r. reflexivity. }
  destruct (lon p) as [y|] eqn:Hlo.
  2:{ rewrite andb_false_r. reflexivity. }
  unfold JsNumber.truthy.
  destruct (negb (JsString.truthy (zip_code p))); [|reflexivity].
  destruct (JsNumber.truthy_float x) eqn:Hx; [|reflexivity].
  destruct (JsNumber.truthy_float y) eqn:Hy; [|reflexivity].
  cbn [andb]. unfold bind.
  pose proof (AddZip_reverseGeocode_eq x y w Hx Hy) as Hz.
  destruct (AddZip.reverseGeocode svc (Some x) (Some y) w) as [zip w1].
  simpl in Hz. subst zip. simpl.
  destruct (postcode_of svc (requests w) x y) as [z|] eqn:Hp; [|reflexivity].
  simpl. rewrite (postcode_of_nonempty _ _ _ _ Hp). reflexivity.
Qed.

(** A record with a postal code is passed over: nothing of it changes,
    no request is issued, no pause is taken. *)
Lemma AddZip_process_skip (p : PropertyRecord) (w : world) :
  JsString.truthy (zip_code p) = true ->
  AddZip.process svc p w = ((p, false), w).
Proof.
  intros H. unfold AddZip.process. rewrite H. reflexivity.
Qed.

Lemma enrich_cases (n : nat) (p : PropertyRecord) :
  enrich svc n p = (p, false)
  \/ exists z, nonempty z = true /\ JsString.truthy (zip_code p) = false
               /\ enrich svc n p = (set_zip p z, true).
Proof.
  unfold enrich.
  destruct (lat p) as [x|]; [|left; reflexivity].
  destruct (lon p) as [y|]; [|left; reflexivity].
  destruct (JsString.truthy (zip_code p)); [left; reflexivity|].
  destruct (JsNumber.truthy_float x); [|left; reflexivity].
  destruct (JsNumber.truthy_float y); [|left; reflexivity].
  simpl.
  destruct (postcode_of svc n x y) as [z|] eqn:Hp; [|left; reflexivity].
  right. exists z. repeat split.
  apply (postcode_of_nonempty _ _ _ _ Hp).
Qed.

End Enrichment.

Lemma enrich_skip (svc : service) (n : nat) (p : PropertyRecord) :
  JsString.truthy (zip_code p) = true -> enrich svc n p = (p, false).
Proof.
  intros H. unfold enrich. rewrite H.
  destruct (lat p), (lon p); reflexivity.
Qed.

(** Whatever the provider answers in a second pass, a record the first
    pass changed is passed over. *)
Lemma enrich_changed_skip (svc svc2 : service) (n m : nat)
      (p : PropertyRecord) :
  fst (enrich svc n p) <> p ->
  enrich svc2 m (fst (enrich svc n p)) = (fst (enrich svc n p), false).
Proof.
  destruct (enrich_cases svc n p) as [H|[z [Hz [_ H]]]]; rewrite H; simpl.
  - intros Hne. contradiction Hne. reflexivity.
  - intros _. apply enrich_skip. simpl. exact Hz.
Qed.

(** Two passes append at most one postal code. *)
Lemma enrich_twice (svc svc2 : service) (n m : nat) (p : PropertyRecord) :
  fst (enrich svc2 m (fst (enrich svc n p))) = p
  \/ exists z, fst (enrich svc2 m (fst (enrich svc n p))) = set_zip p z.
Proof.
  destruct (enrich_cases svc n p) as [H|[z [Hz [_ H]]]]; rewrite H; simpl.
  - destruct (enrich_cases svc2 m p) as [H2|[z2 [_ [_ H2]]]]; rewrite H2.
    + left. reflexivity.
    + right. exists z2. reflexivity.
  - right. exists z. rewrite enrich_skip by exact Hz. reflexivity.
Qed.

Lemma enrich_stateless (svc : service) (n m : nat) (p : PropertyRecord) :
  stateless_reverse svc -> enrich svc m p = enrich svc n p.
Proof.
  intros Hs. unfold enrich, postcode_of.
  destruct (lat p) as [x|]; [|reflexivity].
  destruct (lon p) as [y|]; [|reflexivity].
  rewrite (Hs m n x y). reflexivity.
Qed.

Lemma enrich_idempotent (svc : service) (n m : nat) (p : PropertyRecord) :
  stateless_reverse svc ->
  enrich svc m (fst (enrich svc n p)) = (fst (enrich svc n p), false).
Proof.
  intros Hs.
  destruct (enrich_cases svc n p) as [H|[z [Hz [_ H]]]]; rewrite H; simpl.
  - rewrite (enrich_stateless svc n m p Hs). exact H.
  - apply enrich_skip. exact Hz.
Qed.

Lemma AddZip_run_cons (svc : service) (p : PropertyRecord)
      (ps : list PropertyRecord) (w : world) :
  fst (AddZip.run svc (p :: ps) w)
  = (fst (enrich svc (requests w) p)
       :: fst (fst (AddZip.run svc ps (snd (AddZip.process svc p w)))),
     ((if snd (enrich svc (requests w) p) then 1 else 0)
      + snd (fst (AddZip.run svc ps (snd (AddZip.process svc p w)))))%nat).
Proof.
  simpl. unfold bind. rewrite <- AddZip_process_eq.
  destruct (AddZip.process svc p w) as [r w1]. cbn [fst snd].
  destruct (AddZip.run svc ps w1) as [rest w2]. reflexivity.
Qed.

Lemma AddZip_run_idempotent (svc : service) (ps : list PropertyRecord) :
  stateless_reverse svc ->
  forall w w2,
    fst (AddZip.run svc (fst (fst (AddZip.run svc ps w))) w2)
    = (fst (fst (AddZip.run svc ps w)), 0).
Proof.
  intros Hs. induction ps as [|p ps IH]; intros w w2.
  - reflexivity.
  - rewrite (AddZip_run_cons svc p ps w). cbn [fst].
    rewrite AddZip_run_cons, IH.
    rewrite (enrich_idempotent svc _ _ p Hs). reflexivity.
Qed.

(** C8 (as amended).  A record whose postal code is set (a non-empty
    string) is passed over entirely by the enrichment: no field changes,
    no request, no pause.  So a second pass, whatever the provider answers
    then, leaves every record the first pass changed as it is, and two
    passes append at most one postal code to an address.  When the
    provider answers a coordinate pair the same way every time, the second
    pass changes no field of any record. *)
Theorem enrichment_idempotent :
  forall svc : service,
    (forall p w,
       JsString.truthy (zip_code p) = true ->
       AddZip.process svc p w = ((p, false), w))
    /\ (forall svc2 p w w2,
          (fst (fst (AddZip.process svc p w)) <> p ->
           AddZip.process svc2 (fst (fst (AddZip.process svc p w))) w2
           = ((fst (fst (AddZip.process svc p w)), false), w2))
          /\ (fst (fst (AddZip.process svc2
                          (fst (fst (AddZip.process svc p w))) w2)) = p
              \/ exists z,
                   fst (fst (AddZip.process svc2
                               (fst (fst (AddZip.process svc p w))) w2))
                   = set_zip p z))
    /\ (stateless_reverse svc ->
        forall ps w w2,
          fst (AddZip.run svc (fst (fst (AddZip.run svc ps w))) w2)
          = (fst (fst (AddZip.run svc ps w)), 0)).
Proof.
  intros svc. split; [|split].
  - apply AddZip_process_skip.
  - intros svc2 p w w2. rewrite !AddZip_process_eq. split.
    + intros Hne. apply AddZip_process_skip.
      destruct (enrich_cases svc (requests w) p) as [H|[z [Hz [_ H]]]];
        rewrite H in *; simpl in *.
      * contradiction Hne. reflexivity.
      * exact Hz.
    + apply enrich_twice.
  - intros Hs ps. apply AddZip_run_idempotent. exact Hs.
Qed.

Lemma found_in_michigan_stateless : stateless_reverse found_in_michigan.
Proof. intros n m x y. reflexivity. Qed.

Lemma enrichment_idempotent_witness :
  stateless_reverse found_in_michigan
  /\ fst (fst (AddZip.run found_in_michigan [plausible_on_record] world0))
     = [set_zip plausible_on_record "48187"]
  /\ fst (AddZip.run found_in_michigan
            (fst (fst (AddZip.run found_in_michigan
                         [plausible_on_record] world0)))
            world0)
     = ([set_zip plausible_on_record "48187"], 0).
Proof.
  split; [exact found_in_michigan_stateless|]. split; [reflexivity|].
  rewrite (proj2 (proj2 (enrichment_idempotent found_in_michigan))
             found_in_michigan_stateless [plausible_on_record]
             world0 world0).
  reflexivity.
Defined.

(** C8 fails as stated: a record for which the first pass got no postal
    code (here the request failed) is asked about again by the second
    pass, and changed when the provider answers then. *)
Lemma enrichment_counterexample :
  fst (fst (AddZip.run failure_then_postcode [plausible_on_record] world0))
  = [plausible_on_record]
  /\ fst (fst (AddZip.run failure_then_postcode [plausible_on_record]
                 (snd (AddZip.run failure_then_postcode
                         [plausible_on_record] world0))))
     = [set_zip plausible_on_record "48187"]
  /\ set_zip plausible_on_record "48187" <> plausible_on_record
  /\ address (set_zip plausible_on_record "48187") = "Canton, MI 48187".
Proof.
  repeat split. discriminate.
Qed.

(* ===================================================================== *)
(** * The reserved address and the postal code *)
(* ===================================================================== *)

Section Sentinel.

Variable svc : service.

(** A page without location and with a title: the address is the
    reserved one and the query is the title alone. *)
Lemma plan_without_location (pg : Scrape.page) (t : string) :
  JsString.truthy (Scrape.find_location pg) = false ->
  Scrape.pg_title pg = Some t ->
  Scrape.plan pg = Some (ADDRESS_NOT_FOUND, Some t).
Proof.
  intros Hl Ht. unfold Scrape.plan. rewrite Ht.
  assert (Hpair :
    match Scrape.find_location pg with
    | Some l => if nonempty l
                then (l, if includes l "," then l else l ++ ", USA")
                else (ADDRESS_NOT_FOUND, "")
    | None => (ADDRESS_NOT_FOUND, "")
    end = (ADDRESS_NOT_FOUND, "")).
  { destruct (Scrape.find_location pg) as [l|]; [|reflexivity].
    simpl in Hl. rewrite Hl. reflexivity. }
  rewrite Hpair. cbn [negb String.eqb ADDRESS_NOT_FOUND].
  change (String.eqb ADDRESS_NOT_FOUND ADDRESS_NOT_FOUND) with true.
  cbn [negb]. destruct (includes t " at "); cbn.
  - rewrite andb_false_r. reflexivity.
  - rewrite andb_false_r. reflexivity.
Qed.

Lemma scrape_page_without_location (pg : Scrape.page) (t : string)
      (w : world) :
  JsString.truthy (Scrape.find_location pg) = false ->
  Scrape.pg_title pg = Some t ->
  nonempty t = true ->
  fst (Scrape.scrape_page svc pg w)
  = Some (mkProperty (Some t) (Scrape.pg_url pg) (Scrape.pg_image pg)
            (Scrape.pg_description pg) ADDRESS_NOT_FOUND
            (Scrape.find_location pg)
            (c_lat (first_result (forward svc (requests w) t)))
            (c_lon (first_result (forward svc (requests w) t)))
            None)
  /\ forwards (trace (snd (Scrape.scrape_page svc pg w)))
     = (forwards (trace w) ++ [t])%list.
Proof.
  intros Hl Ht Hne. unfold Scrape.scrape_page.
  rewrite (plan_without_location pg t Hl Ht).
  unfold Scrape.geocode. rewrite Hne, Ht.
  unfold bind, Scrape.geocodeAddress, bind, sleep, fetch_forward, ret.
  cbn [fst snd requests trace].
  destruct (Scrape.find_location pg) as [l|].
  - simpl in Hl. rewrite Hl, andb_false_r. cbn [fst snd requests trace].
    split; [reflexivity|].
    rewrite !forwards_app. simpl. rewrite !app_nil_r. reflexivity.
  - cbn [fst snd requests trace]. split; [reflexivity|].
    rewrite !forwards_app. simpl. rewrite !app_nil_r. reflexivity.
Qed.

(** The re-resolution passes over a record with the reserved address and
    a present pair. *)
Lemma Fix_process_sentinel (p : PropertyRecord) (w : world) :
  address p = ADDRESS_NOT_FOUND -> coords_present p ->
  Fix.process svc p w = ((p, false), w).
Proof.
  intros Ha [Hla Hlo]. unfold Fix.process, Fix.needsUpdate.
  destruct (lat p) as [x|]; [|contradiction].
  destruct (lon p) as [y|]; [|contradiction].
  rewrite Ha. reflexivity.
Qed.

(** The enrichment of a record for which a postal code is found. *)
Lemma AddZip_process_found (p : PropertyRecord) (w : world)
      (x y : float) (z : string) :
  JsString.truthy (zip_code p) = false ->
  lat p = Some x -> lon p = Some y ->
  JsNumber.truthy_float x = true -> JsNumber.truthy_float y = true ->
  reverse svc (requests w) x y = RevData (Some z) ->
  nonempty z = true ->
  fst (AddZip.process svc p w) = (set_zip p z, true).
Proof.
  intros Hz Hla Hlo Hx Hy Hr Hne.
  rewrite AddZip_process_eq. unfold enrich, postcode_of.
  rewrite Hla, Hlo, Hz, Hx, Hy, Hr, Hne. reflexivity.
Qed.

End Sentinel.

(** C10.  A listing page without a location and with a title is geocoded
    with the title alone, and its record holds the reserved address
    ["Address Not Found"] next to whatever coordinates that query gave;
    the re-resolution passes over such a record once its pair is present;
    and when the record has no postal code, its coordinates are usable
    and the reverse provider gives a postal code, the enrichment appends
    the code to the reserved address, which becomes
    ["Address Not Found <postal code>"]. *)
Theorem sentinel_address_gets_postcode :
  forall svc : service,
    (forall pg t w,
       JsString.truthy (Scrape.find_location pg) = false ->
       Scrape.pg_title pg = Some t ->
       nonempty t = true ->
       fst (Scrape.scrape_page svc pg w)
       = Some (mkProperty (Some t) (Scrape.pg_url pg) (Scrape.pg_image pg)
                 (Scrape.pg_description pg) ADDRESS_NOT_FOUND
                 (Scrape.find_location pg)
                 (c_lat (first_result (forward svc (requests w) t)))
                 (c_lon (first_result (forward svc (requests w) t)))
                 None)
       /\ forwards (trace (snd (Scrape.scrape_page svc pg w)))
          = (forwards (trace w) ++ [t])%list)
    /\ (forall p w,
          address p = ADDRESS_NOT_FOUND -> coords_present p ->
          Fix.process svc p w = ((p, false), w))
    /\ (forall p w x y z,
          address p = ADDRESS_NOT_FOUND ->
          JsString.truthy (zip_code p) = false ->
          lat p = Some x -> lon p = Some y ->
          JsNumber.truthy_float x = true -> JsNumber.truthy_float y = true ->
          reverse svc (requests w) x y = RevData (Some z) ->
          nonempty z = true ->
          fst (AddZip.process svc p w) = (set_zip p z, true)
          /\ address (set_zip p z) = "Address Not Found " ++ z
          /\ zip_code (set_zip p z) = Some z).
Proof.
  intros svc. split; [|split].
  - apply scrape_page_without_location.
  - apply Fix_process_sentinel.
  - intros p w x y z Ha Hz Hla Hlo Hx Hy Hr Hne. split; [|split].
    + apply (AddZip_process_found svc p w x y z); assumption.
    + simpl. rewrite Ha. reflexivity.
    + reflexivity.
Qed.

Lemma sentinel_address_gets_postcode_witness :
  fst (Scrape.scrape_page found_in_michigan untitled_location_page world0)
  = Some (mkProperty (Some "The Meadows")
            "https://gshrealestate.com/portfolio/a/" None None
            "Address Not Found" None
            (Some 42.3%float) (Some (-83.4)%float) None)
  /\ fst (AddZip.process found_in_michigan
            (mkProperty (Some "The Meadows")
               "https://gshrealestate.com/portfolio/a/" None None
               "Address Not Found" None
               (Some 42.3%float) (Some (-83.4)%float) None)
            world0)
     = (mkProperty (Some "The Meadows")
          "https://gshrealestate.com/portfolio/a/" None None
          "Address Not Found 48187" None
          (Some 42.3%float) (Some (-83.4)%float) (Some "48187"),
        true).
Proof.
  split.
  - apply (proj1 (proj1 (sentinel_address_gets_postcode found_in_michigan)
                    untitled_location_page "The Meadows" world0
                    eq_refl eq_refl eq_refl)).
  - apply (proj1 (proj2 (proj2
                    (sentinel_address_gets_postcode found_in_michigan))
                    (mkProperty (Some "The Meadows")
                       "https://gshrealestate.com/portfolio/a/" None None
                       "Address Not Found" None
                       (Some 42.3%float) (Some (-83.4)%float) None)
                    world0 42.3%float (-83.4)%float "48187"
                    eq_refl eq_refl eq_refl eq_refl eq_refl eq_refl eq_refl
                    eq_refl)).
Defined.

(* ===================================================================== *)
(** * The candidate queries *)
(* ===================================================================== *)





Section Candidates.

(** The queries of the initial geocode for a page with a title and a
    location. *)
Lemma plan_with_location (pg : Scrape.page) (t l : string) :
  Scrape.pg_title pg = Some t -> nonempty t = true ->
  Scrape.find_location pg = Some l -> nonempty l = true ->
  l <> ADDRESS_NOT_FOUND -> strip_entities l <> ADDRESS_NOT_FOUND ->
  Scrape.plan pg
  = Some (strip_entities l, Some (t ++ ", " ++ strip_entities l)).
Proof.
  intros Ht Hnt Hl Hnl Hs Hs'. unfold Scrape.plan.
  rewrite Hl, Hnl, Ht.
  apply String.eqb_neq in Hs. apply String.eqb_neq in Hs'.
  rewrite Hs. cbn [negb]. rewrite Hs'. cbn [negb].
  simpl JsString.truthy. rewrite Hnt. reflexivity.
Qed.

Lemma candidates_with_location (pg : Scrape.page) (t l : string) :
  Scrape.pg_title pg = Some t -> nonempty t = true ->
  Scrape.find_location pg = Some l -> nonempty l = true ->
  l <> ADDRESS_NOT_FOUND -> strip_entities l <> ADDRESS_NOT_FOUND ->
  Scrape.candidates pg = [t ++ ", " ++ strip_entities l; l].
Proof.
  intros Ht Hnt Hl Hnl Hs Hs'. unfold Scrape.candidates.
  rewrite (plan_with_location pg t l Ht Hnt Hl Hnl Hs Hs'), Hl, Hnl.
  destruct t; [discriminate|]. reflexivity.
Qed.

(** The requests of the initial geocode of a page are its candidates, in
    order, up to the first one that gives a usable latitude. *)
Lemma Scrape_geocode_asks_candidates (svc : service) (pg : Scrape.page)
      (a : string) (gq : option string) (w : world) :
  Scrape.plan pg = Some (a, gq) ->
  exists asked rest,
    Scrape.candidates pg = (asked ++ rest)%list
    /\ forwards (trace (snd (Scrape.geocode svc gq
                               (Scrape.find_location pg) w)))
       = (forwards (trace w) ++ asked)%list.
Proof.
  intros Hp. unfold Scrape.candidates, Scrape.geocode. rewrite Hp.
  destruct gq as [q|].
  2:{ exists [], []. split; [reflexivity|]. simpl. rewrite app_nil_r.
      reflexivity. }
  destruct (nonempty q).
  2:{ exists [], []. split; [reflexivity|]. simpl. rewrite app_nil_r.
      reflexivity. }
  unfold bind.
  pose proof (Scrape_geocodeAddress_trace svc q w) as Hq.
  destruct (Scrape.geocodeAddress svc q w) as [c w1]. simpl in Hq.
  destruct (Scrape.find_location pg) as [l|].
  - destruct (nonempty l).
    + destruct (negb (JsNumber.truthy (c_lat c))); cbn [andb].
      * exists [q; l], []. split; [reflexivity|].
        rewrite Scrape_geocodeAddress_trace, Hq, !forwards_app.
        simpl. rewrite <- app_assoc. reflexivity.
      * exists [q], [l]. split; [reflexivity|].
        simpl. rewrite Hq, forwards_app. reflexivity.
    + rewrite andb_false_r. exists [q], []. split; [reflexivity|].
      simpl. rewrite Hq, forwards_app. reflexivity.
  - exists [q], []. split; [reflexivity|].
    simpl. rewrite Hq, forwards_app. reflexivity.
Qed.



End Candidates.






(* ===================================================================== *)
(** * The file between two passes *)
(* ===================================================================== *)

Lemma json_roundtrip_idempotent (v : JsNumber.num) :
  JsNumber.json_roundtrip (JsNumber.json_roundtrip v)
  = JsNumber.json_roundtrip v.
Proof.
  destruct v as [x|]; [|reflexivity]. simpl.
  destruct (PrimFloat.is_finite x) eqn:Hf; [|reflexivity].
  destruct (PrimFloat.is_zero x) eqn:Hz; simpl.
  - reflexivity.
  - rewrite Hf, Hz. reflexivity.
Qed.

Lemma json_roundtrip_null_or_finite (v : JsNumber.num) :
  JsNumber.is_null (JsNumber.json_roundtrip v)
  || JsNumber.finite (JsNumber.json_roundtrip v) = true.
Proof.
  destruct v as [x|]; [|reflexivity]. simpl.
  destruct (PrimFloat.is_finite x) eqn:Hf; [|reflexivity].
  destruct (PrimFloat.is_zero x); simpl.
  - reflexivity.
  - exact Hf.
Qed.

Lemma json_roundtrip_not_finite (v : JsNumber.num) :
  JsNumber.finite v = false -> JsNumber.json_roundtrip v = None.
Proof.
  destruct v as [x|]; [|reflexivity]. simpl. intros H. rewrite H.
  reflexivity.
Qed.

(** X1.  Writing the collection to the JSON file and reading it back is
    stable: a second round trip changes nothing, every coordinate read
    back is [null] or a finite number, and no other field is touched. *)
Theorem persist_stable :
  forall p : PropertyRecord,
    persist (persist p) = persist p
    /\ JsNumber.is_null (lat (persist p))
       || JsNumber.finite (lat (persist p)) = true
    /\ JsNumber.is_null (lon (persist p))
       || JsNumber.finite (lon (persist p)) = true
    /\ same_but_coords p (persist p).
Proof.
  intros p. unfold persist. repeat split.
  - unfold set_coords. simpl. rewrite !json_roundtrip_idempotent.
    reflexivity.
  - apply json_roundtrip_null_or_finite.
  - apply json_roundtrip_null_or_finite.
Qed.

(** X2.  A record whose latitude or longitude is not a finite number in
    memory ([null], [NaN], an infinity) reads back from the file with a
    [null] component, and the corrective script selects it for
    re-resolution. *)
Theorem non_finite_coordinates_reselected :
  forall p : PropertyRecord,
    JsNumber.finite (lat p) = false \/ JsNumber.finite (lon p) = false ->
    coords_missing (persist p) /\ Fix.needsUpdate (persist p) = true.
Proof.
  intros p H.
  assert (Hm : coords_missing (persist p)).
  { unfold coords_missing, persist. simpl.
    destruct H as [H|H]; [left|right];
      apply json_roundtrip_not_finite; exact H. }
  split; [exact Hm|].
  apply needsUpdate_spec. left. exact Hm.
Qed.

Lemma non_finite_coordinates_reselected_witness :
  Fix.needsUpdate stored_nan = false
  /\ Fix.needsUpdate (persist stored_nan) = true.
Proof.
  split; [reflexivity|].
  apply (non_finite_coordinates_reselected stored_nan).
  left. reflexivity.
Defined.

(* ===================================================================== *)
(** * What the re-resolution touches, asks and accepts *)
(* ===================================================================== *)

Lemma same_but_coords_refl (p : PropertyRecord) : same_but_coords p p.
Proof. destruct p. reflexivity. Qed.

Lemma Fix_run_step (svc : service) (p : PropertyRecord)
      (ps : list PropertyRecord) (w : world) :
  Fix.run svc (p :: ps) w
  = ((fst (fst (Fix.process svc p w))
        :: fst (fst (Fix.run svc ps (snd (Fix.process svc p w)))),
      ((if snd (fst (Fix.process svc p w)) then 1 else 0)
       + snd (fst (Fix.run svc ps (snd (Fix.process svc p w)))))%nat),
     snd (Fix.run svc ps (snd (Fix.process svc p w)))).
Proof.
  simpl. unfold bind. destruct (Fix.process svc p w) as [r w1].
  cbn [fst snd]. destruct (Fix.run svc ps w1) as [rest w2]. reflexivity.
Qed.

Lemma Fix_process_same_but_coords (svc : service) (p : PropertyRecord)
      (w : world) :
  same_but_coords p (fst (fst (Fix.process svc p w))).
Proof.
  unfold Fix.process. destruct (Fix.needsUpdate p).
  - rewrite try_queries_result.
    destruct (Orchestrator.first_validated svc (requests w) (Fix.queries p))
      as [[q c]|]; simpl.
    + reflexivity.
    + apply same_but_coords_refl.
  - apply same_but_coords_refl.
Qed.

(** X3.  The re-resolution writes coordinates and nothing else: every
    record of the collection comes out with its title, url, image,
    description, address, location field and postal code as they were, in
    the same position. *)
Theorem reresolution_touches_coordinates_only :
  forall (svc : service) (ps : list PropertyRecord) (w : world),
    Forall2 same_but_coords ps (fst (fst (Fix.run svc ps w))).
Proof.
  intros svc ps. induction ps as [|p ps IH]; intros w.
  - constructor.
  - rewrite Fix_run_step. cbn [fst]. constructor.
    + apply Fix_process_same_but_coords.
    + apply IH.
Qed.

Lemma queries_length (p : PropertyRecord) :
  (List.length (Fix.queries p) <= 3)%nat.
Proof.
  unfold Fix.queries.
  destruct (nonempty (address p)
            && negb (String.eqb (address p) ADDRESS_NOT_FOUND));
    destruct (title p) as [t|]; try destruct (nonempty t); simpl; lia.
Qed.

Lemma try_queries_requests_bound (svc : service) (qs : list string)
      (p : PropertyRecord) :
  forall w,
    (requests w <= requests (snd (Fix.try_queries svc qs p w))
     <= requests w + List.length qs)%nat.
Proof.
  assert (Hone : forall q w,
    (requests w <= requests (snd (Fix.geocodeAddress svc q w))
     <= S (requests w))%nat).
  { intros q w. rewrite Fix_geocodeAddress_eq. simpl.
    unfold Orchestrator.issued. destruct (nonempty q); lia. }
  induction qs as [|q qs IH]; intros w.
  - simpl. lia.
  - destruct (Orchestrator.validated q
                (Orchestrator.answer svc (requests w) q)) eqn:Hv.
    + rewrite try_queries_accept by exact Hv. cbn [snd List.length].
      specialize (Hone q w). lia.
    + destruct (validated_cases _ _ Hv) as [[Hr Hs]|Hr].
      * rewrite try_queries_suspicious by assumption.
        specialize (IH (snd (Fix.geocodeAddress svc q w))).
        specialize (Hone q w). cbn [List.length]. lia.
      * rewrite try_queries_no_result by assumption.
        specialize (IH (snd (sleep 1000 (snd (Fix.geocodeAddress svc q w))))).
        specialize (Hone q w). cbn [List.length].
        simpl in IH. simpl. lia.
Qed.

Lemma Fix_process_requests_bound (svc : service) (p : PropertyRecord)
      (w : world) :
  (requests w <= requests (snd (Fix.process svc p w))
   <= requests w + (if Fix.needsUpdate p then 3 else 0))%nat
  /\ (snd (fst (Fix.process svc p w)) = true -> Fix.needsUpdate p = true).
Proof.
  unfold Fix.process. destruct (Fix.needsUpdate p).
  - split; [|reflexivity].
    pose proof (try_queries_requests_bound svc (Fix.queries p) p w).
    pose proof (queries_length p). lia.
  - simpl. split; [lia|discriminate].
Qed.

(** X4.  A run of the re-resolution issues at most three requests for
    each record it selects and none for the others, and the count of
    updated properties it reports is at most the number of selected
    records. *)
Theorem reresolution_requests_bounded :
  forall (svc : service) (ps : list PropertyRecord) (w : world),
    (requests w <= requests (snd (Fix.run svc ps w))
     <= requests w + 3 * List.length (filter Fix.needsUpdate ps))%nat
    /\ (snd (fst (Fix.run svc ps w))
        <= List.length (filter Fix.needsUpdate ps))%nat.
Proof.
  intros svc ps. induction ps as [|p ps IH]; intros w.
  - simpl. lia.
  - rewrite Fix_run_step. cbn [fst snd filter].
    destruct (Fix_process_requests_bound svc p w) as [Hreq Hfound].
    destruct (IH (snd (Fix.process svc p w))) as [IHreq IHcount].
    destruct (Fix.needsUpdate p); cbn [List.length].
    + split; [lia|].
      destruct (snd (fst (Fix.process svc p w))); lia.
    + destruct (snd (fst (Fix.process svc p w))).
      * discriminate (Hfound eq_refl).
      * split; lia.
Qed.

(** X5.  A record without a usable title whose address is empty or the
    reserved one has no candidate query: the re-resolution issues no
    request and takes no pause for it, and leaves it as it is, selected
    or not. *)
Theorem reresolution_without_candidates :
  forall (svc : service) (p : PropertyRecord) (w : world),
    JsString.truthy (title p) = false ->
    nonempty (address p) = false \/ address p = ADDRESS_NOT_FOUND ->
    Fix.queries p = [] /\ Fix.process svc p w = ((p, false), w).
Proof.
  intros svc p w Ht Ha.
  assert (Hq : Fix.queries p = []).
  { unfold Fix.queries.
    assert (Hc : nonempty (address p)
                 && negb (String.eqb (address p) ADDRESS_NOT_FOUND) = false).
    { destruct Ha as [Ha|Ha].
      - rewrite Ha. reflexivity.
      - rewrite Ha. apply andb_false_r. }
    rewrite Hc. destruct (title p) as [t|]; [|reflexivity].
    simpl in Ht. rewrite Ht. reflexivity. }
  split; [exact Hq|].
  unfold Fix.process. rewrite Hq. destruct (Fix.needsUpdate p); reflexivity.
Qed.

Lemma reresolution_without_candidates_witness :
  Fix.needsUpdate nameless = true
  /\ Fix.process found_in_michigan nameless world0
     = ((nameless, false), world0).
Proof.
  split; [reflexivity|].
  apply (reresolution_without_candidates found_in_michigan nameless world0).
  - reflexivity.
  - right. reflexivity.
Defined.

Lemma first_validated_in (svc : service) (qs : list string) :
  forall n q c,
    Orchestrator.first_validated svc n qs = Some (q, c) -> In q qs.
Proof.
  induction qs as [|q0 qs IH]; intros n q c; simpl.
  - discriminate.
  - destruct (Orchestrator.validated q0 (Orchestrator.answer svc n q0)).
    + intros H. injection H as Hq _. left. exact Hq.
    + intros H. right. apply (IH _ _ _ H).
Qed.

(** X6.  When the re-resolution reports a record as resolved, the record
    was selected, its new latitude is usable (not [null], [0] or [NaN]),
    its new longitude is not [null], and the pair passed the plausibility
    check for one of the candidate queries of the record. *)
Theorem resolved_record_validated :
  forall (svc : service) (p : PropertyRecord) (w : world),
    snd (fst (Fix.process svc p w)) = true ->
    Fix.needsUpdate p = true
    /\ JsNumber.truthy (lat (fst (fst (Fix.process svc p w)))) = true
    /\ lon (fst (fst (Fix.process svc p w))) <> None
    /\ exists q,
         In q (Fix.queries p)
         /\ Fix.suspicious q
              (mkCoords (lat (fst (fst (Fix.process svc p w))))
                        (lon (fst (fst (Fix.process svc p w))))) = false.
Proof.
  intros svc p w. unfold Fix.process.
  destruct (Fix.needsUpdate p); [|discriminate].
  rewrite try_queries_result.
  destruct (Orchestrator.first_validated svc (requests w) (Fix.queries p))
    as [[q c]|] eqn:Hf; simpl; [|discriminate].
  intros _. split; [reflexivity|].
  destruct (first_validated_some svc _ _ _ _ Hf) as [n' [Hc Hv]].
  pose proof (first_validated_in svc _ _ _ _ Hf) as Hin.
  unfold Orchestrator.validated in Hv. apply andb_true_iff in Hv.
  destruct Hv as [Hr Hs]. apply negb_true_iff in Hs.
  split; [exact Hr|]. split.
  - rewrite Hc in Hr |- *. apply (answer_returned_present svc _ _ Hr).
  - exists q. split; [exact Hin|]. destruct c. exact Hs.
Qed.

Lemma resolved_record_validated_witness :
  snd (fst (Fix.process wrong_then_right meadows_michigan world0)) = true
  /\ JsNumber.truthy
       (lat (fst (fst (Fix.process wrong_then_right meadows_michigan
                         world0)))) = true.
Proof.
  split; [reflexivity|].
  apply (resolved_record_validated wrong_then_right meadows_michigan world0).
  reflexivity.
Defined.

(** ** The pair in memory *)

Lemma first_result_paired (r : fwd_response) :
  (c_lat (first_result r) = None /\ c_lon (first_result r) = None)
  \/ (c_lat (first_result r) <> None /\ c_lon (first_result r) <> None).
Proof.
  destruct r as [|[|c data]]; simpl.
  - left. split; reflexivity.
  - left. split; reflexivity.
  - right. split; discriminate.
Qed.

Lemma Scrape_geocode_paired (svc : service) (gq loc : option string)
      (w : world) :
  (c_lat (fst (Scrape.geocode svc gq loc w)) = None
   /\ c_lon (fst (Scrape.geocode svc gq loc w)) = None)
  \/ (c_lat (fst (Scrape.geocode svc gq loc w)) <> None
      /\ c_lon (fst (Scrape.geocode svc gq loc w)) <> None).
Proof.
  unfold Scrape.geocode.
  destruct gq as [q|]; [|left; split; reflexivity].
  destruct (nonempty q); [|left; split; reflexivity].
  unfold bind, Scrape.geocodeAddress, bind, sleep, fetch_forward, ret.
  cbn [fst snd requests trace].
  destruct loc as [l|]; [|apply first_result_paired].
  destruct (negb (JsNumber.truthy
                    (c_lat (first_result (forward svc (requests w) q))))
            && nonempty l); apply first_result_paired.
Qed.

(** X7.  In memory no pass leaves exactly one component [null],
    whatever the provider sends: the initial geocode stores two numbers
    or two [null]s, and the re-resolution keeps a pair that is not half
    set so.  (A half-set pair only arises in the file, from a number that
    is not finite.) *)
Theorem pair_never_half_null_in_memory :
  forall svc : service,
    (forall pg w p,
       fst (Scrape.scrape_page svc pg w) = Some p -> coords_paired p)
    /\ (forall p w,
          coords_paired p ->
          coords_paired (fst (fst (Fix.process svc p w)))).
Proof.
  intros svc. split.
  - intros pg w p. unfold Scrape.scrape_page.
    destruct (Scrape.plan pg) as [[a gq]|]; [|discriminate].
    unfold bind.
    pose proof (Scrape_geocode_paired svc gq (Scrape.find_location pg) w)
      as Hc.
    destruct (Scrape.geocode svc gq (Scrape.find_location pg) w) as [c w1].
    simpl. intros H. injection H as Hp. subst p. exact Hc.
  - intros p w [Hp|Hp].
    + unfold Fix.process. destruct (Fix.needsUpdate p); [|left; exact Hp].
      rewrite try_queries_result.
      destruct (Orchestrator.first_validated svc (requests w) (Fix.queries p))
        as [[q c]|] eqn:Hf; simpl; [|left; exact Hp].
      destruct (first_validated_some svc _ _ _ _ Hf) as [n' [Hc Hv]].
      unfold Orchestrator.validated in Hv. apply andb_true_iff in Hv.
      destruct Hv as [Hr _]. subst c. right.
      apply (answer_returned_present svc _ _ Hr).
    + right. apply process_keeps_present. exact Hp.
Qed.

Lemma pair_never_half_null_in_memory_witness :
  coords_paired meadows_michigan
  /\ coords_paired (fst (fst (Fix.process half_parsed meadows_michigan
                                world0))).
Proof.
  assert (H : coords_paired meadows_michigan).
  { left. split; reflexivity. }
  split; [exact H|].
  apply (proj2 (pair_never_half_null_in_memory half_parsed)
           meadows_michigan world0 H).
Defined.

(* ===================================================================== *)
(** * The reach of the plausibility check *)
(* ===================================================================== *)

Section Separator.

Variable c : ascii.

(** A text without [c] that starts [s ++ c :: r] starts [s]. *)
Lemma strip_prefix_across (pat : string) :
  forall s r,
    no_char c pat = true -> pat <> "" ->
    (strip_prefix pat (s ++ String c r) = None
     <-> strip_prefix pat s = None).
Proof.
  induction pat as [|a pat IH]; intros s r Hno Hne.
  - contradiction Hne. reflexivity.
  - simpl in Hno. apply andb_true_iff in Hno. destruct Hno as [Hac Hno].
    apply negb_true_iff in Hac.
    destruct s as [|b s]; simpl.
    + rewrite Hac. split; reflexivity.
    + destruct (Ascii.eqb a b); [|split; reflexivity].
      destruct pat as [|a' pat'].
      * simpl. split; discriminate.
      * apply IH; [exact Hno|discriminate].
Qed.

(** A text without [c] occurs in [s ++ c :: r] exactly when it occurs in
    [s] or in [r]. *)
Lemma includes_across (pat : string) :
  no_char c pat = true -> pat <> "" ->
  forall s r,
    includes (s ++ String c r) pat = includes s pat || includes r pat.
Proof.
  intros Hno Hne s r. unfold includes.
  induction s as [|b s IH].
  - cbn [append find_first].
    assert (H1 : strip_prefix pat (String c r) = None).
    { apply (strip_prefix_across pat "" r Hno Hne).
      destruct pat; [contradiction Hne|]; reflexivity. }
    assert (H2 : strip_prefix pat "" = None).
    { destruct pat; [contradiction Hne; reflexivity|reflexivity]. }
    rewrite H1, H2. cbn [orb].
    destruct (find_first pat r) as [[x y]|]; reflexivity.
  - change (String b s ++ String c r) with (String b (s ++ String c r)).
    cbn [find_first].
    destruct (strip_prefix pat (String b s)) as [rest|] eqn:Hs.
    + destruct (strip_prefix pat (String b (s ++ String c r))) as [rest'|]
        eqn:Hsr; [reflexivity|].
      apply (strip_prefix_across pat (String b s) r Hno Hne) in Hsr.
      rewrite Hsr in Hs. discriminate.
    + assert (Hsr : strip_prefix pat (String b (s ++ String c r)) = None).
      { apply (strip_prefix_across pat (String b s) r Hno Hne). exact Hs. }
      rewrite Hsr.
      destruct (find_first pat (s ++ String c r)) as [[x y]|];
        destruct (find_first pat s) as [[x' y']|];
        destruct (find_first pat r) as [[x'' y'']|];
        simpl in IH |- *; congruence.
Qed.

End Separator.

Lemma includes_after_space (a pat : string) (m : ascii) :
  Ascii.eqb m " "%char = false ->
  includes (" " ++ a) (String m pat) = includes a (String m pat).
Proof.
  intros Hm. unfold includes. cbn [append find_first strip_prefix].
  rewrite Hm.
  destruct (find_first (String m pat) a) as [[x y]|]; reflexivity.
Qed.

Lemma query_without_michigan (p : PropertyRecord) (q : string) :
  includes (address p) "Michigan" = false ->
  (forall t, title p = Some t -> includes t "Michigan" = false) ->
  In q (Fix.queries p) -> includes q "Michigan" = false.
Proof.
  intros Ha Ht Hin.
  assert (Hsep : forall s r,
            includes (s ++ String "," r) "Michigan"
            = includes s "Michigan" || includes r "Michigan").
  { apply includes_across; [reflexivity|discriminate]. }
  unfold Fix.queries in Hin. apply in_app_or in Hin.
  destruct Hin as [Hin|Hin].
  - destruct (nonempty (address p)
              && negb (String.eqb (address p) ADDRESS_NOT_FOUND));
      [|destruct Hin].
    destruct Hin as [Hq|Hin].
    + subst q. change (address p ++ ", USA")
        with (address p ++ String "," " USA").
      rewrite Hsep, Ha. reflexivity.
    + destruct (title p) as [t|] eqn:Etitle; [|destruct Hin].
      destruct (nonempty t); [|destruct Hin].
      destruct Hin as [Hq|[]]. subst q.
      change (t ++ ", " ++ address p ++ ", USA")
        with (t ++ String "," (" " ++ address p ++ ", USA")).
      rewrite Hsep, (Ht t eq_refl). cbn [orb].
      rewrite <- (append_assoc " " (address p) ", USA").
      change ((" " ++ address p) ++ ", USA")
        with ((" " ++ address p) ++ String "," " USA").
      rewrite Hsep, includes_after_space by reflexivity.
      rewrite Ha. reflexivity.
  - destruct (title p) as [t|] eqn:Etitle; [|destruct Hin].
    destruct (nonempty t); [|destruct Hin].
    destruct Hin as [Hq|[]]. subst q.
    change (t ++ ", USA") with (t ++ String "," " USA").
    rewrite Hsep, (Ht t eq_refl). reflexivity.
Qed.

(** X8.  The plausibility check of the re-resolution looks for
    ["Michigan"] in the candidate query as it was built, before any
    abbreviation is expanded.  For a record whose address and title do
    not spell out ["Michigan"] (an address such as ["Canton, MI"]) no
    candidate is ever suspicious: the first result with a usable latitude
    is accepted whatever the latitude. *)
Theorem plausibility_check_needs_spelled_out_region :
  forall (svc : service) (p : PropertyRecord) (w : world),
    includes (address p) "Michigan" = false ->
    (forall t, title p = Some t -> includes t "Michigan" = false) ->
    (forall q c, In q (Fix.queries p) ->
       Fix.suspicious q c = false
       /\ Orchestrator.validated q c = Orchestrator.returned c)
    /\ (forall q rest c,
          Fix.queries p = q :: rest ->
          Orchestrator.answer svc (requests w) q = c ->
          Orchestrator.returned c = true ->
          fst (Fix.try_queries svc (Fix.queries p) p w)
          = (set_coords p (c_lat c) (c_lon c), true)).
Proof.
  intros svc p w Ha Ht.
  assert (Hs : forall q c, In q (Fix.queries p) ->
                 Fix.suspicious q c = false).
  { intros q c Hin. unfold Fix.suspicious.
    rewrite (query_without_michigan p q Ha Ht Hin). reflexivity. }
  split.
  - intros q c Hin. split; [apply Hs; exact Hin|].
    unfold Orchestrator.validated. rewrite (Hs q c Hin).
    apply andb_true_r.
  - intros q rest c Hq Hc Hr.
    assert (Hin : In q (Fix.queries p)) by (rewrite Hq; left; reflexivity).
    rewrite Hq, try_queries_accept; [rewrite Hc; reflexivity|].
    unfold Orchestrator.validated. rewrite Hc, Hr, (Hs q c Hin).
    reflexivity.
Qed.

Lemma plausibility_check_needs_spelled_out_region_witness :
  Fix.needsUpdate suspicious_on_record = true
  /\ fst (Fix.try_queries found_in_mississippi
            (Fix.queries suspicious_on_record) suspicious_on_record world0)
     = (set_coords suspicious_on_record
          (Some 32.3%float) (Some (-90.0)%float), true).
Proof.
  split; [reflexivity|].
  apply (proj2 (plausibility_check_needs_spelled_out_region
                  found_in_mississippi suspicious_on_record world0
                  eq_refl
                  (fun t H => match H in (_ = o)
                                return (match o with
                                        | Some t' =>
                                            includes t' "Michigan" = false
                                        | None => True
                                        end)
                              with eq_refl => eq_refl end))
           "Canton, MI, USA"
           ["The Meadows, Canton, MI, USA"; "The Meadows, USA"]
           (mkCoords (Some 32.3%float) (Some (-90.0)%float))
           eq_refl eq_refl eq_refl).
Defined.

(* ===================================================================== *)
(** * What the postal enrichment touches, counts and asks *)
(* ===================================================================== *)

Lemma address_ends_with_zip (p : PropertyRecord) (z : string) :
  endsWith (address (set_zip p z)) (" " ++ z) = true.
Proof.
  simpl. rewrite endsWith_append by (simpl; lia). apply endsWith_refl.
Qed.

Lemma AddZip_run_step (svc : service) (p : PropertyRecord)
      (ps : list PropertyRecord) (w : world) :
  AddZip.run svc (p :: ps) w
  = ((fst (fst (AddZip.process svc p w))
        :: fst (fst (AddZip.run svc ps (snd (AddZip.process svc p w)))),
      ((if snd (fst (AddZip.process svc p w)) then 1 else 0)
       + snd (fst (AddZip.run svc ps (snd (AddZip.process svc p w)))))%nat),
     snd (AddZip.run svc ps (snd (AddZip.process svc p w)))).
Proof.
  simpl. unfold bind. destruct (AddZip.process svc p w) as [r w1].
  cbn [fst snd]. destruct (AddZip.run svc ps w1) as [rest w2]. reflexivity.
Qed.

(** The two outcomes of the enrichment of one record. *)
Lemma AddZip_process_outcome (svc : service) (p : PropertyRecord)
      (w : world) :
  fst (AddZip.process svc p w) = (p, false)
  \/ exists z,
       nonempty z = true /\ eligible p = true
       /\ fst (AddZip.process svc p w) = (set_zip p z, true).
Proof.
  rewrite AddZip_process_eq. unfold enrich, eligible, JsNumber.truthy.
  destruct (lat p) as [x|]; [|left; reflexivity].
  destruct (lon p) as [y|]; [|left; reflexivity].
  destruct (negb (JsString.truthy (zip_code p)) && JsNumber.truthy_float x
            && JsNumber.truthy_float y); [|left; reflexivity].
  destruct (postcode_of svc (requests w) x y) as [z|] eqn:Hp;
    [|left; reflexivity].
  right. exists z. repeat split.
  apply (postcode_of_nonempty svc _ _ _ _ Hp).
Qed.

(** X9.  The postal enrichment keeps every record in its place and
    either leaves it exactly as it was or, for a record without postal
    code and with usable coordinates, sets a non-empty postal code and
    appends it, after a space, to the address: the new address ends in
    the postal code and every other field is as it was. *)
Theorem enrichment_appends_postcode_only :
  forall (svc : service) (ps : list PropertyRecord) (w : world),
    Forall2 enriched ps (fst (fst (AddZip.run svc ps w))).
Proof.
  intros svc ps. induction ps as [|p ps IH]; intros w.
  - constructor.
  - rewrite AddZip_run_step. cbn [fst]. constructor; [|apply IH].
    destruct (AddZip_process_outcome svc p w) as [H|[z [Hz [He H]]]];
      rewrite H; cbn [fst].
    + left. reflexivity.
    + right. exists z. repeat split; try assumption.
      apply address_ends_with_zip.
Qed.

(** X10.  The count of updated properties the postal enrichment reports
    is the number of records that had no postal code before the run and
    have one after it, and it is at most the number of records the run
    asked the provider about. *)
Theorem enrichment_count_is_records_zipped :
  forall (svc : service) (ps : list PropertyRecord) (w : world),
    snd (fst (AddZip.run svc ps w))
    = zipped_count ps (fst (fst (AddZip.run svc ps w)))
    /\ (snd (fst (AddZip.run svc ps w))
        <= List.length (filter eligible ps))%nat.
Proof.
  intros svc ps. induction ps as [|p ps IH]; intros w.
  - split; [reflexivity|]. simpl. lia.
  - rewrite AddZip_run_step. cbn [fst snd zipped_count filter].
    destruct (IH (snd (AddZip.process svc p w))) as [IHc IHb].
    rewrite <- IHc.
    destruct (AddZip_process_outcome svc p w) as [H|[z [Hz [He H]]]];
      rewrite H; cbn [fst snd].
    + split.
      * destruct (JsString.truthy (zip_code p)); reflexivity.
      * destruct (eligible p); cbn [List.length]; lia.
    + rewrite He. cbn [List.length].
      unfold eligible in He. apply andb_true_iff in He.
      destruct He as [He _]. apply andb_true_iff in He.
      destruct He as [He _]. rewrite He. simpl. rewrite Hz.
      split; [reflexivity|lia].
Qed.

Lemma AddZip_process_world (svc : service) (p : PropertyRecord) (w : world) :
  requests (snd (AddZip.process svc p w))
  = (requests w + (if eligible p then 1 else 0))%nat
  /\ trace (snd (AddZip.process svc p w))
     = (trace w ++ enrichment_events p)%list.
Proof.
  unfold AddZip.process, enrichment_events. fold (eligible p).
  destruct (eligible p) eqn:He.
  - unfold eligible, JsNumber.truthy in He.
    destruct (lat p) as [x|]; [|rewrite andb_false_r in He; discriminate].
    destruct (lon p) as [y|]; [|rewrite andb_false_r in He; discriminate].
    apply andb_true_iff in He. destruct He as [He Hy].
    apply andb_true_iff in He. destruct He as [_ Hx].
    unfold bind, AddZip.reverseGeocode. rewrite Hx, Hy.
    cbn [negb orb]. unfold bind, fetch_reverse, sleep, ret.
    cbn [fst snd requests trace].
    split; [lia|]. rewrite <- app_assoc. reflexivity.
  - assert (Hev : match lat p, lon p with
                  | Some _, Some _ => []
                  | _, _ => []
                  end = ([] : list event)).
    { destruct (lat p), (lon p); reflexivity. }
    rewrite Hev. simpl. split; [lia|]. rewrite app_nil_r. reflexivity.
Qed.

(** X11.  The traffic of the postal enrichment is fixed by the
    collection it reads, whatever the provider answers: one reverse
    request for the coordinates of each record that has no postal code
    and usable coordinates, each followed by a pause of 1000 ms, in the
    order of the collection, and nothing for the other records. *)
Theorem enrichment_traffic_fixed_by_input :
  forall (svc : service) (ps : list PropertyRecord) (w : world),
    trace (snd (AddZip.run svc ps w))
    = (trace w ++ flat_map enrichment_events ps)%list
    /\ requests (snd (AddZip.run svc ps w))
       = (requests w + List.length (filter eligible ps))%nat.
Proof.
  intros svc ps. induction ps as [|p ps IH]; intros w.
  - simpl. rewrite app_nil_r. split; [reflexivity|lia].
  - rewrite AddZip_run_step. cbn [snd flat_map filter].
    destruct (IH (snd (AddZip.process svc p w))) as [IHt IHr].
    destruct (AddZip_process_world svc p w) as [Hr Ht].
    rewrite IHt, IHr, Hr, Ht. split.
    + rewrite <- app_assoc. reflexivity.
    + destruct (eligible p); cbn [List.length]; lia.
Qed.

(* ===================================================================== *)
(** * The initial geocode: when it dies, what it stores, what it asks *)
(* ===================================================================== *)

Lemma plan_none_iff (pg : Scrape.page) :
  Scrape.plan pg = None
  <-> Scrape.pg_title pg = None
      /\ (JsString.truthy (Scrape.find_location pg) = false
          \/ Scrape.find_location pg = Some ADDRESS_NOT_FOUND).
Proof.
  assert (Hsent : forall q : string,
    match (if negb (String.eqb ADDRESS_NOT_FOUND ADDRESS_NOT_FOUND)
           then Some (strip_entities ADDRESS_NOT_FOUND,
                      strip_entities ADDRESS_NOT_FOUND)
           else match Scrape.pg_title pg with
                | Some t =>
                    if includes t " at "
                    then Some (ADDRESS_NOT_FOUND,
                               match split_second t " at " with
                               | Some city => city
                               | None => "undefined"
                               end ++ ", USA")
                    else Some (ADDRESS_NOT_FOUND, q)
                | None => None
                end)
    with
    | Some (a, _) =>
        Some (a, if JsString.truthy (Scrape.pg_title pg)
                    && negb (String.eqb a ADDRESS_NOT_FOUND)
                 then match Scrape.pg_title pg with
                      | Some t => Some (t ++ ", " ++ a)
                      | None => None
                      end
                 else if negb (String.eqb a ADDRESS_NOT_FOUND)
                      then Some a else Scrape.pg_title pg)
    | None => None
    end = None <-> Scrape.pg_title pg = None).
  { intros q. rewrite String.eqb_refl. cbn [negb].
    destruct (Scrape.pg_title pg) as [t|].
    - destruct (includes t " at "); split; discriminate.
    - split; reflexivity. }
  unfold Scrape.plan.
  destruct (Scrape.find_location pg) as [l|].
  - destruct (nonempty l) eqn:Hl.
    + destruct (String.eqb l ADDRESS_NOT_FOUND) eqn:He.
      * apply String.eqb_eq in He. subst l.
        rewrite (Hsent _). split.
        -- intros H. split; [exact H|right; reflexivity].
        -- intros [H _]. exact H.
      * cbn [negb]. split; [discriminate|].
        intros [_ [H|H]].
        -- simpl in H. rewrite Hl in H. discriminate.
        -- injection H as H. subst l. discriminate.
    + rewrite (Hsent _). split.
      * intros H. split; [exact H|left; exact Hl].
      * intros [H _]. exact H.
  - rewrite (Hsent _). split.
    + intros H. split; [exact H|left; reflexivity].
    + intros [H _]. exact H.
Qed.

Lemma scrape_page_none_iff (svc : service) (pg : Scrape.page) (w : world) :
  fst (Scrape.scrape_page svc pg w) = None <-> Scrape.plan pg = None.
Proof.
  unfold Scrape.scrape_page.
  destruct (Scrape.plan pg) as [[a gq]|].
  - unfold bind.
    destruct (Scrape.geocode svc gq (Scrape.find_location pg) w) as [c w1].
    simpl. split; discriminate.
  - split; reflexivity.
Qed.

Lemma Scrape_run_step (svc : service) (pg : Scrape.page)
      (pgs : list Scrape.page) (w : world) :
  Scrape.run svc (pg :: pgs) w
  = match fst (Scrape.scrape_page svc pg w) with
    | None => (None, snd (Scrape.scrape_page svc pg w))
    | Some p =>
        (option_map (cons p)
           (fst (Scrape.run svc pgs (snd (Scrape.scrape_page svc pg w)))),
         snd (Scrape.run svc pgs (snd (Scrape.scrape_page svc pg w))))
    end.
Proof.
  simpl. unfold bind. destruct (Scrape.scrape_page svc pg w) as [[p|] w1].
  - cbn [fst snd]. destruct (Scrape.run svc pgs w1) as [rest w2].
    reflexivity.
  - reflexivity.
Qed.

(** X12.  The initial geocode dies on a page, with a TypeError on the
    [null] title, exactly when the page has no title and no location (or
    a location that is the reserved address); and a run writes no file
    exactly when one of its pages is such a page. *)
Theorem scrape_dies_without_title_and_location :
  (forall pg,
     Scrape.plan pg = None
     <-> Scrape.pg_title pg = None
         /\ (JsString.truthy (Scrape.find_location pg) = false
             \/ Scrape.find_location pg = Some ADDRESS_NOT_FOUND))
  /\ (forall svc pgs w,
        fst (Scrape.run svc pgs w) = None
        <-> exists pg, In pg pgs /\ Scrape.plan pg = None).
Proof.
  split; [apply plan_none_iff|].
  intros svc pgs. induction pgs as [|pg pgs IH]; intros w.
  - simpl. split; [discriminate|]. intros [pg [[] _]].
  - rewrite Scrape_run_step.
    destruct (fst (Scrape.scrape_page svc pg w)) as [p|] eqn:Hp.
    + assert (Hplan : Scrape.plan pg <> None).
      { intros H. apply (scrape_page_none_iff svc pg w) in H.
        rewrite H in Hp. discriminate. }
      cbn [fst]. split.
      * intros H.
        destruct (fst (Scrape.run svc pgs (snd (Scrape.scrape_page svc pg w))))
          as [rest|] eqn:Hrest; [discriminate|].
        apply IH in Hrest. destruct Hrest as [pg' [Hin Hnone]].
        exists pg'. split; [right; exact Hin|exact Hnone].
      * intros [pg' [[Heq|Hin] Hnone]].
        -- subst pg'. contradiction.
        -- assert (Hrest : fst (Scrape.run svc pgs
                                  (snd (Scrape.scrape_page svc pg w))) = None).
           { apply IH. exists pg'. split; assumption. }
           rewrite Hrest. reflexivity.
    + cbn [fst]. split; [|reflexivity].
      intros _. exists pg. split; [left; reflexivity|].
      apply (scrape_page_none_iff svc pg w). exact Hp.
Qed.

Lemma scrape_page_scraped (svc : service) (pg : Scrape.page) (w : world)
      (p : PropertyRecord) :
  fst (Scrape.scrape_page svc pg w) = Some p -> scraped pg p.
Proof.
  unfold Scrape.scrape_page.
  destruct (Scrape.plan pg) as [[a gq]|] eqn:Hplan; [|discriminate].
  unfold bind.
  destruct (Scrape.geocode svc gq (Scrape.find_location pg) w) as [c w1].
  simpl. intros H. injection H as Hp. subst p.
  unfold scraped. simpl. repeat split.
  revert Hplan. unfold Scrape.plan, page_address.
  destruct (Scrape.find_location pg) as [l|].
  - destruct (nonempty l).
    + destruct (String.eqb l ADDRESS_NOT_FOUND) eqn:He; cbn [negb andb].
      * apply String.eqb_eq in He. subst l. rewrite ?String.eqb_refl.
        cbn [negb].
        destruct (Scrape.pg_title pg) as [t|]; [|discriminate].
        destruct (includes t " at "); intros H; injection H as Ha _;
          symmetry; exact Ha.
      * rewrite ?He. cbn [negb]. intros H. injection H as Ha _.
        symmetry. exact Ha.
    + rewrite String.eqb_refl. cbn [negb andb].
      destruct (Scrape.pg_title pg) as [t|]; [|discriminate].
      destruct (includes t " at "); intros H; injection H as Ha _;
        symmetry; exact Ha.
  - rewrite String.eqb_refl. cbn [negb].
    destruct (Scrape.pg_title pg) as [t|]; [|discriminate].
    destruct (includes t " at "); intros H; injection H as Ha _;
      symmetry; exact Ha.
Qed.

Lemma Scrape_run_scraped (svc : service) (pgs : list Scrape.page) :
  forall w out,
    fst (Scrape.run svc pgs w) = Some out -> Forall2 scraped pgs out.
Proof.
  induction pgs as [|pg pgs IH]; intros w out.
  - simpl. intros H. injection H as H. subst out. constructor.
  - rewrite Scrape_run_step.
    destruct (fst (Scrape.scrape_page svc pg w)) as [p|] eqn:Hp;
      [|discriminate].
    cbn [fst].
    destruct (fst (Scrape.run svc pgs (snd (Scrape.scrape_page svc pg w))))
      as [rest|] eqn:Hrest; [|discriminate].
    simpl. intros H. injection H as H. subst out. constructor.
    + apply (scrape_page_scraped svc pg w p Hp).
    + apply (IH _ _ Hrest).
Qed.

Lemma Scrape_run_urls (svc : service)
      (pgs : list Scrape.page) (w : world) (out : list PropertyRecord) :
  fst (Scrape.run svc pgs w) = Some out ->
  map url out = map Scrape.pg_url pgs.
Proof.
  intros H. pose proof (Scrape_run_scraped svc pgs w out H) as Hs.
  clear H. induction Hs as [|pg p pgs' out' Hp _ IH].
  - reflexivity.
  - simpl. rewrite IH. destruct Hp as (_ & Hu & _). rewrite Hu.
    reflexivity.
Qed.

(** X13.  When a run of the initial geocode ends, it has made one record
    for each page, in the order of the pages: the record has the title,
    url, image and description of the page, the raw location as location
    field, no postal code, and as address the location without its HTML
    entities, or ["Address Not Found"] when the page has no location. *)
Theorem scrape_makes_one_record_per_page :
  forall (svc : service) (pgs : list Scrape.page) (w : world)
         (out : list PropertyRecord),
    fst (Scrape.run svc pgs w) = Some out ->
    Forall2 scraped pgs out /\ map url out = map Scrape.pg_url pgs.
Proof.
  intros svc pgs w out H. split.
  - apply (Scrape_run_scraped svc pgs w out H).
  - apply (Scrape_run_urls svc pgs w out H).
Qed.

Lemma scrape_makes_one_record_per_page_witness :
  Forall2 scraped [meadows_page; untitled_location_page]
    [mkProperty (Some "The Meadows")
       "https://gshrealestate.com/portfolio/a/" None None
       "Canton, MI" (Some "Canton, MI")
       (Some 42.3%float) (Some (-83.4)%float) None;
     mkProperty (Some "The Meadows")
       "https://gshrealestate.com/portfolio/a/" None None
       "Address Not Found" None
       (Some 42.3%float) (Some (-83.4)%float) None].
Proof.
  apply (proj1 (scrape_makes_one_record_per_page found_in_michigan
                  [meadows_page; untitled_location_page] world0 _ eq_refl)).
Defined.

Lemma Scrape_geocode_requests_bound (svc : service)
      (gq loc : option string) (w : world) :
  (requests w <= requests (snd (Scrape.geocode svc gq loc w))
   <= requests w + 2)%nat.
Proof.
  unfold Scrape.geocode.
  destruct gq as [q|]; [|simpl; lia].
  destruct (nonempty q); [|simpl; lia].
  unfold bind, Scrape.geocodeAddress, bind, sleep, fetch_forward, ret.
  cbn [fst snd requests trace].
  destruct loc as [l|]; [|simpl; lia].
  destruct (negb (JsNumber.truthy
                    (c_lat (first_result (forward svc (requests w) q))))
            && nonempty l); simpl; lia.
Qed.

Lemma scrape_page_requests_bound (svc : service) (pg : Scrape.page)
      (w : world) :
  (requests w <= requests (snd (Scrape.scrape_page svc pg w))
   <= requests w + 2)%nat.
Proof.
  unfold Scrape.scrape_page.
  destruct (Scrape.plan pg) as [[a gq]|]; [|simpl; lia].
  unfold bind.
  pose proof (Scrape_geocode_requests_bound svc gq
                (Scrape.find_location pg) w) as H.
  destruct (Scrape.geocode svc gq (Scrape.find_location pg) w) as [c w1].
  simpl in *. exact H.
Qed.

(** X14.  A run of the initial geocode issues at most two forward
    requests for each page, whether it ends or dies on the way. *)
Theorem scrape_requests_bounded :
  forall (svc : service) (pgs : list Scrape.page) (w : world),
    (requests w <= requests (snd (Scrape.run svc pgs w))
     <= requests w + 2 * List.length pgs)%nat.
Proof.
  intros svc pgs. induction pgs as [|pg pgs IH]; intros w.
  - simpl. lia.
  - rewrite Scrape_run_step.
    pose proof (scrape_page_requests_bound svc pg w) as Hp.
    destruct (fst (Scrape.scrape_page svc pg w)) as [p|].
    + cbn [snd List.length].
      specialize (IH (snd (Scrape.scrape_page svc pg w))). lia.
    + cbn [snd List.length]. lia.
Qed.

(** X15.  The coordinates the initial geocode stores for a page are the
    answer to its first candidate query when that answer has a usable
    latitude; otherwise they are the answer to the second candidate (the
    raw location) when the page has one, whatever that answer is; a page
    without candidate gets the [null] pair. *)
Theorem scrape_stores_first_usable_answer :
  forall (svc : service) (pg : Scrape.page) (w : world) (p : PropertyRecord),
    fst (Scrape.scrape_page svc pg w) = Some p ->
    mkCoords (lat p) (lon p)
    = stored_coords svc (requests w) (Scrape.candidates pg).
Proof.
  intros svc pg w p. unfold Scrape.scrape_page, Scrape.candidates.
  destruct (Scrape.plan pg) as [[a gq]|]; [|discriminate].
  unfold bind, Scrape.geocode.
  destruct gq as [q|].
  2:{ simpl. intros H. injection H as H. subst p. reflexivity. }
  destruct (nonempty q).
  2:{ simpl. intros H. injection H as H. subst p. reflexivity. }
  unfold bind, Scrape.geocodeAddress, bind, sleep, fetch_forward, ret.
  cbn [fst snd requests trace].
  destruct (Scrape.find_location pg) as [l|].
  - destruct (nonempty l); cbn [andb stored_coords].
    + destruct (JsNumber.truthy
                  (c_lat (first_result (forward svc (requests w) q))));
        cbn [negb andb fst snd requests trace];
        intros H; injection H as H; subst p; cbn [lat lon];
        destruct (first_result _); reflexivity.
    + rewrite andb_false_r. cbn [fst snd].
      intros H. injection H as H. subst p. cbn [lat lon].
      destruct (JsNumber.truthy
                  (c_lat (first_result (forward svc (requests w) q))));
        destruct (first_result _); reflexivity.
  - cbn [fst snd stored_coords].
    intros H. injection H as H. subst p. cbn [lat lon].
    destruct (JsNumber.truthy
                (c_lat (first_result (forward svc (requests w) q))));
      destruct (first_result _); reflexivity.
Qed.

Lemma scrape_stores_first_usable_answer_witness :
  Scrape.candidates meadows_page = ["The Meadows, Canton, MI"; "Canton, MI"]
  /\ mkCoords (Some 42.3%float) (Some (-83.4)%float)
     = stored_coords town_only 0 (Scrape.candidates meadows_page).
Proof.
  split; [reflexivity|].
  exact (scrape_stores_first_usable_answer town_only meadows_page world0
           (mkProperty (Some "The Meadows")
              "https://gshrealestate.com/portfolio/a/" None None
              "Canton, MI" (Some "Canton, MI")
              (Some 42.3%float) (Some (-83.4)%float) None)
           eq_refl).
Defined.

(* ===================================================================== *)
(** * The links of the home page *)
(* ===================================================================== *)

Lemma mem_in (x : string) (l : list string) :
  existsb (String.eqb x) l = true <-> In x l.
Proof.
  rewrite existsb_exists. split.
  - intros [y [Hin Heq]]. apply String.eqb_eq in Heq. subst y. exact Hin.
  - intros Hin. exists x. split; [exact Hin|apply String.eqb_refl].
Qed.

Lemma mem_not_in (x : string) (l : list string) :
  existsb (String.eqb x) l = false <-> ~ In x l.
Proof.
  rewrite <- mem_in. destruct (existsb (String.eqb x) l); split;
    congruence.
Qed.

Lemma unique_from_in (links : list string) :
  forall seen x,
    In x (Crawl.unique_from seen links) <-> In x links /\ ~ In x seen.
Proof.
  induction links as [|l links IH]; intros seen x; simpl.
  - tauto.
  - destruct (existsb (String.eqb l) seen) eqn:Hm.
    + apply mem_in in Hm. rewrite IH. split.
      * intros [H1 H2]. tauto.
      * intros [[H1|H1] H2]; [subst l; contradiction|tauto].
    + apply mem_not_in in Hm. simpl. rewrite IH. simpl. split.
      * intros [H|[H1 H2]]; [subst l; tauto|tauto].
      * intros [[H1|H1] H2]; [tauto|].
        destruct (string_dec l x) as [He|He]; [tauto|].
        right. tauto.
Qed.

Lemma unique_from_nodup (links : list string) :
  forall seen, NoDup (Crawl.unique_from seen links).
Proof.
  induction links as [|l links IH]; intros seen; simpl.
  - constructor.
  - destruct (existsb (String.eqb l) seen).
    + apply IH.
    + constructor; [|apply IH].
      rewrite unique_from_in. simpl. tauto.
Qed.

Lemma unique_from_nodup_id (links : list string) :
  forall seen,
    NoDup links -> (forall x, In x links -> ~ In x seen) ->
    Crawl.unique_from seen links = links.
Proof.
  induction links as [|l links IH]; intros seen Hnd Hseen; simpl.
  - reflexivity.
  - inversion Hnd as [|l' links' Hnin Hnd']; subst.
    assert (Hm : existsb (String.eqb l) seen = false).
    { apply mem_not_in. apply Hseen. left. reflexivity. }
    rewrite Hm. f_equal. apply IH; [exact Hnd'|].
    intros x Hx [He|Hs].
    + subst x. contradiction.
    + apply (Hseen x); [right; exact Hx|exact Hs].
Qed.

(** X16.  The list of unique links holds every link the home page gave
    and no other, each once; a list without duplicates goes through
    unchanged (so does the result itself). *)
Theorem unique_links_once_each :
  forall links : list string,
    NoDup (Crawl.unique links)
    /\ (forall x, In x (Crawl.unique links) <-> In x links)
    /\ (NoDup links -> Crawl.unique links = links)
    /\ Crawl.unique (Crawl.unique links) = Crawl.unique links.
Proof.
  intros links. unfold Crawl.unique. repeat split.
  - apply unique_from_nodup.
  - intros H. apply unique_from_in in H. tauto.
  - intros H. apply unique_from_in. simpl. tauto.
  - intros H. apply unique_from_nodup_id; [exact H|]. simpl. tauto.
  - apply unique_from_nodup_id; [apply unique_from_nodup|]. simpl. tauto.
Qed.

(** A page that cannot be fetched is passed over: the loop over the urls
    is the loop over the pages that could be read. *)
Lemma visit_fetched (svc : service) (pages : Crawl.site)
      (urls : list string) :
  forall w,
    Crawl.visit svc pages urls w
    = Scrape.run svc (Crawl.fetched pages urls) w.
Proof.
  induction urls as [|u urls IH]; intros w; simpl.
  - reflexivity.
  - destruct (pages u) as [pg|]; [|apply IH].
    simpl. unfold bind.
    destruct (Scrape.scrape_page svc (Crawl.at_url u pg) w) as [[p|] w1];
      [|reflexivity].
    rewrite IH. reflexivity.
Qed.

Lemma fetched_urls (pages : Crawl.site) (urls : list string) :
  map Scrape.pg_url (Crawl.fetched pages urls)
  = filter (has_page pages) urls.
Proof.
  induction urls as [|u urls IH]; simpl.
  - reflexivity.
  - unfold has_page at 1. destruct (pages u) as [pg|]; simpl.
    + rewrite IH. reflexivity.
    + exact IH.
Qed.

(** X17.  When the scraping script writes its file, the records it
    writes have pairwise distinct urls: they are, in order, the unique
    links of the home page whose page could be fetched, one record for
    each.  A page that cannot be fetched costs no record and does not
    stop the run. *)
Theorem scraped_urls_distinct :
  forall (svc : service) (pages : Crawl.site)
         (links_of : string -> list string) (home : option string)
         (w : world) (out : list PropertyRecord),
    fst (Crawl.main svc pages links_of home w) = Some out ->
    exists html,
      home = Some html
      /\ map url out
         = filter (has_page pages) (Crawl.unique (links_of html))
      /\ NoDup (map url out).
Proof.
  intros svc pages links_of home w out. unfold Crawl.main.
  destruct home as [html|]; [|discriminate].
  destruct (nonempty html); [|discriminate].
  rewrite visit_fetched. intros H.
  apply Scrape_run_urls in H.
  exists html. split; [reflexivity|].
  rewrite H, fetched_urls. split; [reflexivity|].
  apply NoDup_filter. apply unique_from_nodup.
Qed.

Lemma scraped_urls_distinct_witness :
  exists html,
    Some "<html>" = Some html
    /\ map url
         [mkProperty (Some "The Meadows")
            "https://gshrealestate.com/portfolio/a/" None None
            "Canton, MI" (Some "Canton, MI")
            (Some 42.3%float) (Some (-83.4)%float) None]
       = filter (has_page one_listing) (Crawl.unique (links_twice html))
    /\ NoDup (map url
                [mkProperty (Some "The Meadows")
                   "https://gshrealestate.com/portfolio/a/" None None
                   "Canton, MI" (Some "Canton, MI")
                   (Some 42.3%float) (Some (-83.4)%float) None]).
Proof.
  apply (scraped_urls_distinct found_in_michigan one_listing links_twice
           (Some "<html>") world0 _ eq_refl).
Defined.

(* ===================================================================== *)
(** * The clients when the provider fails *)
(* ===================================================================== *)

(** X18.  No client passes a failure on: a failed request or an empty
    result list makes both forward clients hand back the [null] pair, a
    failed request or a missing or empty postal code makes the reverse
    client hand back [null]; each of them has issued its one request. *)
Theorem clients_degrade_to_absent :
  forall (svc : service) (w : world),
    (forall q,
       nonempty q = true ->
       no_result (forward svc (requests w) (Fix.expand q)) ->
       fst (Fix.geocodeAddress svc q w) = no_coords
       /\ requests (snd (Fix.geocodeAddress svc q w)) = S (requests w))
    /\ (forall q,
          no_result (forward svc (requests w) q) ->
          fst (Scrape.geocodeAddress svc q w) = no_coords
          /\ requests (snd (Scrape.geocodeAddress svc q w)) = S (requests w))
    /\ (forall x y,
          JsNumber.truthy_float x = true -> JsNumber.truthy_float y = true ->
          no_postcode (reverse svc (requests w) x y) ->
          fst (AddZip.reverseGeocode svc (Some x) (Some y) w) = None
          /\ requests (snd (AddZip.reverseGeocode svc (Some x) (Some y) w))
             = S (requests w)).
Proof.
  intros svc w. split; [|split].
  - intros q Hq Hr. rewrite Fix_geocodeAddress_eq.
    unfold Orchestrator.answer, Orchestrator.issued. rewrite Hq. simpl.
    split; [|reflexivity].
    destruct Hr as [Hr|Hr]; rewrite Hr; reflexivity.
  - intros q Hr.
    unfold Scrape.geocodeAddress, bind, sleep, fetch_forward, ret. simpl.
    split; [|reflexivity].
    destruct Hr as [Hr|Hr]; rewrite Hr; reflexivity.
  - intros x y Hx Hy Hr. unfold AddZip.reverseGeocode. rewrite Hx, Hy.
    cbn [negb orb]. unfold bind, fetch_reverse, ret. simpl.
    split; [|reflexivity].
    destruct Hr as [Hr|[Hr|Hr]]; rewrite Hr; reflexivity.
Qed.

Lemma clients_degrade_to_absent_witness :
  fst (Fix.geocodeAddress provider_down "Canton, MI, USA" world0) = no_coords
  /\ fst (Scrape.geocodeAddress provider_down "Canton, MI" world0) = no_coords
  /\ fst (AddZip.reverseGeocode provider_down
            (Some 42.3%float) (Some (-83.4)%float) world0) = None.
Proof.
  split; [|split].
  - apply (proj1 (clients_degrade_to_absent provider_down world0)
             "Canton, MI, USA" eq_refl).
    left. reflexivity.
  - apply (proj1 (proj2 (clients_degrade_to_absent provider_down world0))
             "Canton, MI").
    left. reflexivity.
  - apply (proj2 (proj2 (clients_degrade_to_absent provider_down world0))
             42.3%float (-83.4)%float eq_refl eq_refl).
    left. reflexivity.
Defined.

(* ===================================================================== *)
(** * The candidate queries as they are sent *)
(* ===================================================================== *)

(** X19.  Every candidate query of the re-resolution is non-empty and
    ends in [", USA"], so the abbreviation table never rewrites one: the
    provider is asked the candidate as it was built, an abbreviation such
    as ["MI"] included. *)
Theorem candidates_sent_unexpanded :
  forall (p : PropertyRecord) (q : string),
    In q (Fix.queries p) ->
    nonempty q = true
    /\ endsWith q ", USA" = true
    /\ Fix.expand q = q
    /\ forall svc w,
         trace (snd (Fix.geocodeAddress svc q w))
         = (trace w ++ [EvForward q])%list.
Proof.
  intros p q Hin.
  pose proof (queries_nonempty p q Hin) as Hne.
  pose proof (expand_queries p q Hin) as Hex.
  split; [exact Hne|]. split; [|split; [exact Hex|]].
  - destruct (queries_country_suffix p q Hin) as [s Hs]. subst q.
    rewrite endsWith_append by (simpl; lia). reflexivity.
  - intros svc w. rewrite Fix_geocodeAddress_eq. simpl.
    rewrite Hne, Hex. reflexivity.
Qed.

Lemma candidates_sent_unexpanded_witness :
  Fix.expand "Canton, MI, USA" = "Canton, MI, USA"
  /\ Fix.expand "Canton, MI" = "Canton, Michigan".
Proof.
  split; [|reflexivity].
  apply (candidates_sent_unexpanded suspicious_on_record "Canton, MI, USA").
  left. reflexivity.
Defined.

(* ===================================================================== *)
(** * The title without the name of the site *)
(* ===================================================================== *)

Lemma no_char_append (c : ascii) (s t : string) :
  no_char c (s ++ t) = no_char c s && no_char c t.
Proof.
  induction s as [|a s IH]; simpl.
  - reflexivity.
  - rewrite IH, andb_assoc. reflexivity.
Qed.

(** A pattern that holds a character the text lacks does not occur in
    the text. *)
Lemma find_first_missing_char (c : ascii) (pat s : string) :
  no_char c s = true -> no_char c pat = false -> find_first pat s = None.
Proof.
  intros Hs Hp. destruct (find_first pat s) as [[b a]|] eqn:Hf;
    [|reflexivity].
  apply find_first_some in Hf. subst s.
  rewrite !no_char_append in Hs.
  apply andb_true_iff in Hs. destruct Hs as [_ Hs].
  apply andb_true_iff in Hs. destruct Hs as [Hs _].
  rewrite Hs in Hp. discriminate.
Qed.

Lemma strip_prefix_self (pat rest : string) :
  strip_prefix pat (pat ++ rest) = Some rest.
Proof.
  induction pat as [|a pat IH]; simpl.
  - reflexivity.
  - rewrite Ascii.eqb_refl. exact IH.
Qed.

Lemma find_first_prefix (pat s rest : string) :
  strip_prefix pat s = Some rest -> find_first pat s = Some ("", rest).
Proof.
  intros H. destruct s; simpl; rewrite H; reflexivity.
Qed.

Lemma find_first_later (pat s before after : string) (x : ascii) :
  strip_prefix pat (String x s) = None ->
  find_first pat s = Some (before, after) ->
  find_first pat (String x s) = Some (String x before, after).
Proof.
  intros Hs Hf. simpl find_first. rewrite Hs, Hf. reflexivity.
Qed.

(** A pattern whose second character [c] differs from its first and is
    absent from [name] occurs first at the end of [name] in
    [name ++ pattern]. *)
Lemma find_first_at_end (a c : ascii) (pat name : string) :
  Ascii.eqb c a = false -> no_char c name = true ->
  find_first (String a (String c pat)) (name ++ String a (String c pat))
  = Some (name, "").
Proof.
  intros Hca. induction name as [|x name IH]; intros Hno.
  - apply find_first_prefix.
    pose proof (strip_prefix_self (String a (String c pat)) "") as H.
    rewrite append_empty_r in H. exact H.
  - simpl in Hno. apply andb_true_iff in Hno. destruct Hno as [Hx Hno].
    apply negb_true_iff in Hx.
    change (String x name ++ String a (String c pat))
      with (String x (name ++ String a (String c pat))).
    apply find_first_later; [|exact (IH Hno)].
    cbn [strip_prefix]. destruct (Ascii.eqb a x); [|reflexivity].
    destruct name as [|d name'].
    + cbn [append strip_prefix]. rewrite Hca. reflexivity.
    + cbn [append strip_prefix]. simpl in Hno.
      apply andb_true_iff in Hno. destruct Hno as [Hd _].
      apply negb_true_iff in Hd. rewrite Ascii.eqb_sym, Hd.
      reflexivity.
Qed.

Lemma clean_title_plain (name : string) :
  no_char "-" name = true -> no_char "&" name = true ->
  clean_title name = name.
Proof.
  intros Hd Ha. unfold clean_title, replace.
  rewrite (find_first_missing_char "-" " - GSH Real Estate" name Hd eq_refl).
  rewrite (find_first_missing_char "&" " &#8211; GSH Real Estate" name Ha
             eq_refl).
  reflexivity.
Qed.

(** X20.  The cleaning of the title takes the name of the site off: for
    a name without hyphen and ampersand, the title made of the name and
    [" - GSH Real Estate"], or of the name and
    [" &#8211; GSH Real Estate"], is cleaned to the name, whether it
    comes from the [og:title] field or from the [<title>] element, and
    the name alone is left as it is. *)
Theorem title_cleaned_of_site_name :
  forall name : string,
    no_char "-" name = true -> no_char "&" name = true ->
    clean_title (name ++ " - GSH Real Estate") = name
    /\ clean_title (name ++ " &#8211; GSH Real Estate") = name
    /\ clean_title name = name
    /\ (forall title_tag,
          page_title (Some (name ++ " - GSH Real Estate")) title_tag
          = Some name)
    /\ page_title None (Some (name ++ " &#8211; GSH Real Estate"))
       = Some name.
Proof.
  intros name Hd Ha.
  assert (H1 : clean_title (name ++ " - GSH Real Estate") = name).
  { unfold clean_title. unfold replace at 2.
    rewrite (find_first_at_end " " "-" _ name eq_refl Hd).
    cbn [append]. rewrite append_empty_r.
    unfold replace.
    rewrite (find_first_missing_char "&" " &#8211; GSH Real Estate" name Ha
               eq_refl).
    reflexivity. }
  assert (H2 : clean_title (name ++ " &#8211; GSH Real Estate") = name).
  { unfold clean_title. unfold replace at 2.
    rewrite (find_first_missing_char "-" " - GSH Real Estate"
               (name ++ " &#8211; GSH Real Estate")).
    - unfold replace.
      rewrite (find_first_at_end " " "&" _ name eq_refl Ha).
      cbn [append]. apply append_empty_r.
    - rewrite no_char_append, Hd. reflexivity.
    - reflexivity. }
  split; [exact H1|]. split; [exact H2|].
  split; [apply clean_title_plain; assumption|]. split.
  - intros tt. unfold page_title.
    assert (Hne : nonempty (name ++ " - GSH Real Estate") = true).
    { destruct name; reflexivity. }
    cbn [JsString.truthy]. rewrite Hne, Hne, H1. reflexivity.
  - unfold page_title. cbn [JsString.truthy].
    assert (Hne : nonempty (name ++ " &#8211; GSH Real Estate") = true).
    { destruct name; reflexivity. }
    rewrite Hne, H2. reflexivity.
Qed.

Lemma title_cleaned_of_site_name_witness :
  clean_title "The Meadows at Canton - GSH Real Estate"
  = "The Meadows at Canton"
  /\ clean_title "The Meadows at Canton &#8211; GSH Real Estate"
     = "The Meadows at Canton".
Proof.
  split.
  - apply (proj1 (title_cleaned_of_site_name "The Meadows at Canton"
                    eq_refl eq_refl)).
  - apply (proj1 (proj2 (title_cleaned_of_site_name "The Meadows at Canton"
                           eq_refl eq_refl))).
Defined.
